(** * Constant-product curve arithmetic of the SDK (math/amm)

    A shallow embedding of the pricing and curve-adjustment functions of the
    TypeScript SDK: [calculatePrice], [calculateAmmReservesAfterSwap],
    [calculateSwapOutput], [getSwapDirection], [calculateAdjustKCost],
    [calculateRepegCost], [calculateTerminalPrice] and
    [calculateMaxBaseAssetAmountToTrade].

    The SDK computes on bn.js big integers ([BN]): signed integers of
    arbitrary size, modelled as [Z].  [BN.div] and [BN.mod] truncate towards
    zero ([Z.quot], [Z.rem]) and throw when the divisor is zero; every other
    operation used here is total.  Thrown exceptions are modelled by an error
    monad. *)

From Stdlib Require Import ZArith Lia Bool List String.
Import ListNotations.

Local Open Scope Z_scope.

(** ** Failures *)

(** The two failure classes of the specification's error taxonomy. *)
Inductive ErrorKind : Type :=
| InvalidArgument
| ArithmeticError.

(** What a call can throw: the SDK's own [assert(cond, msg)], the assertion
    bn.js makes on the divisor of [div] and [mod], and whatever one of the
    external collaborators (valuation, square root) raises. *)
Inductive error : Type :=
| AssertFailed (msg : string)
| BNDivisionByZero
| ExternalFailure (kind : ErrorKind).

Definition error_kind (e : error) : ErrorKind :=
  match e with
  | AssertFailed _ => InvalidArgument
  | BNDivisionByZero => ArithmeticError
  | ExternalFailure k => k
  end.

Inductive result (A : Type) : Type :=
| Ok (a : A)
| Err (e : error).

Arguments Ok {A} a.
Arguments Err {A} e.

Definition bind {A B : Type} (r : result A) (k : A -> result B) : result B :=
  match r with
  | Ok a => k a
  | Err e => Err e
  end.

Declare Scope result_scope.
Delimit Scope result_scope with result.
Notation "x <- r ;; k" := (bind r (fun x => k))
  (at level 61, r at next level, right associativity) : result_scope.
Notation "' pat <- r ;; k" := (bind r (fun x => match x with pat => k end))
  (at level 61, pat pattern, r at next level, right associativity) : result_scope.
Local Open Scope result_scope.

(** ** The bn.js operations the module uses *)

Module BN.

Definition div (a b : Z) : result Z :=
  if b =? 0 then Err BNDivisionByZero else Ok (Z.quot a b).

(** [BN.mod] ([mod] is reserved in the Z notations). *)
Definition mod_ (a b : Z) : result Z :=
  if b =? 0 then Err BNDivisionByZero else Ok (Z.rem a b).

Definition abs (a : Z) : Z := Z.abs a.

End BN.

(** [assert(condition, error)] of assert/assert. *)
Definition assert (condition : bool) (msg : string) : result unit :=
  if condition then Ok tt else Err (AssertFailed msg).

(** ** Types (types.ts) *)

Inductive SwapDirection : Type := ADD | REMOVE.
Inductive PositionDirection : Type := LONG | SHORT.
Inductive OracleSource : Type := PYTH | SWITCHBOARD.

(** [AssetType = 'quote' | 'base'] *)
Inductive AssetType : Type := quote | base.

Definition PublicKey : Type := string.

Record AMM : Type := mkAMM {
  baseAssetReserve : Z;
  sqrtK : Z;
  cumulativeFundingRate : Z;
  lastFundingRate : Z;
  lastFundingRateTs : Z;
  lastMarkPriceTwap : Z;
  lastMarkPriceTwapTs : Z;
  lastOraclePriceTwap : Z;
  lastOraclePriceTwapTs : Z;
  oracle : PublicKey;
  oracleSource : OracleSource;
  fundingPeriod : Z;
  quoteAssetReserve : Z;
  pegMultiplier : Z;
  cumulativeFundingRateLong : Z;
  cumulativeFundingRateShort : Z;
  cumulativeRepegRebateLong : Z;
  cumulativeRepegRebateShort : Z;
  totalFeeMinusDistributions : Z;
  totalFeeWithdrawn : Z;
  totalFee : Z;
  minimumQuoteAssetTradeSize : Z;
  minimumBaseAssetTradeSize : Z
}.

Record Market : Type := mkMarket {
  amm : AMM;
  baseAssetAmount : Z;
  baseAssetAmountLong : Z;
  baseAssetAmountShort : Z;
  initialized : bool;
  openInterest : Z
}.

(** The object literal [netUserPosition] built by the cost estimators. *)
Record NetUserPosition : Type := mkNetUserPosition {
  np_baseAssetAmount : Z;
  np_lastCumulativeFundingRate : Z;
  np_marketIndex : Z;
  np_quoteAssetAmount : Z;
  np_openOrders : Z
}.

(** Field assignments [obj.f = v] on a fresh copy. *)
Definition set_baseAssetReserve (v : Z) (a : AMM) : AMM :=
  mkAMM v (sqrtK a) (cumulativeFundingRate a) (lastFundingRate a)
    (lastFundingRateTs a) (lastMarkPriceTwap a) (lastMarkPriceTwapTs a)
    (lastOraclePriceTwap a) (lastOraclePriceTwapTs a) (oracle a)
    (oracleSource a) (fundingPeriod a) (quoteAssetReserve a)
    (pegMultiplier a) (cumulativeFundingRateLong a)
    (cumulativeFundingRateShort a) (cumulativeRepegRebateLong a)
    (cumulativeRepegRebateShort a) (totalFeeMinusDistributions a)
    (totalFeeWithdrawn a) (totalFee a) (minimumQuoteAssetTradeSize a)
    (minimumBaseAssetTradeSize a).

Definition set_quoteAssetReserve (v : Z) (a : AMM) : AMM :=
  mkAMM (baseAssetReserve a) (sqrtK a) (cumulativeFundingRate a)
    (lastFundingRate a) (lastFundingRateTs a) (lastMarkPriceTwap a)
    (lastMarkPriceTwapTs a) (lastOraclePriceTwap a)
    (lastOraclePriceTwapTs a) (oracle a) (oracleSource a) (fundingPeriod a)
    v (pegMultiplier a) (cumulativeFundingRateLong a)
    (cumulativeFundingRateShort a) (cumulativeRepegRebateLong a)
    (cumulativeRepegRebateShort a) (totalFeeMinusDistributions a)
    (totalFeeWithdrawn a) (totalFee a) (minimumQuoteAssetTradeSize a)
    (minimumBaseAssetTradeSize a).

Definition set_sqrtK (v : Z) (a : AMM) : AMM :=
  mkAMM (baseAssetReserve a) v (cumulativeFundingRate a)
    (lastFundingRate a) (lastFundingRateTs a) (lastMarkPriceTwap a)
    (lastMarkPriceTwapTs a) (lastOraclePriceTwap a)
    (lastOraclePriceTwapTs a) (oracle a) (oracleSource a) (fundingPeriod a)
    (quoteAssetReserve a) (pegMultiplier a) (cumulativeFundingRateLong a)
    (cumulativeFundingRateShort a) (cumulativeRepegRebateLong a)
    (cumulativeRepegRebateShort a) (totalFeeMinusDistributions a)
    (totalFeeWithdrawn a) (totalFee a) (minimumQuoteAssetTradeSize a)
    (minimumBaseAssetTradeSize a).

Definition set_amm (v : AMM) (m : Market) : Market :=
  mkMarket v (baseAssetAmount m) (baseAssetAmountLong m)
    (baseAssetAmountShort m) (initialized m) (openInterest m).

Definition set_np_quoteAssetAmount (v : Z) (p : NetUserPosition)
  : NetUserPosition :=
  mkNetUserPosition (np_baseAssetAmount p) (np_lastCumulativeFundingRate p)
    (np_marketIndex p) v (np_openOrders p).

(** ** Scale constants (constants/numericConstants)

    Modelled from the spec: the values of [MARK_PRICE_PRECISION] (the price
    scale) and [PEG_PRECISION] (the peg scale) are declared in
    constants/numericConstants, which is not among the sources; the functions
    below take them as parameters.  [ZERO] and [ONE] are the integers 0 and
    1. *)
Class NumericConstants : Type := {
  MARK_PRICE_PRECISION : Z;
  PEG_PRECISION : Z
}.

Definition ZERO : Z := 0.
Definition ONE : Z := 1.

(** ** math/amm *)

Section Amm.

Context {scales : NumericConstants}.

Definition calculatePrice (baseAssetAmount quoteAssetAmount peg_multiplier : Z)
  : result Z :=
  if BN.abs baseAssetAmount <=? ZERO then Ok 0
  else
    x <- BN.div (quoteAssetAmount * MARK_PRICE_PRECISION * peg_multiplier)
           PEG_PRECISION ;;
    BN.div x baseAssetAmount.

(** Returns [(newInputAssetReserve, newOutputAssetReserve)]. *)
Definition calculateSwapOutput
    (inputAssetReserve swapAmount : Z) (swapDirection : SwapDirection)
    (invariant : Z) : result (Z * Z) :=
  let newInputAssetReserve :=
    match swapDirection with
    | ADD => inputAssetReserve + swapAmount
    | REMOVE => inputAssetReserve - swapAmount
    end in
  newOutputAssetReserve <- BN.div invariant newInputAssetReserve ;;
  Ok (newInputAssetReserve, newOutputAssetReserve).

(** The input-side reserve [calculateSwapOutput] divides by. *)
Definition newInputAssetReserve_of
    (inputAssetReserve swapAmount : Z) (swapDirection : SwapDirection) : Z :=
  match swapDirection with
  | ADD => inputAssetReserve + swapAmount
  | REMOVE => inputAssetReserve - swapAmount
  end.

Definition is_remove (d : SwapDirection) : bool :=
  match d with
  | REMOVE => true
  | ADD => false
  end.

(** Returns [(newQuoteAssetReserve, newBaseAssetReserve)].  The [&&] of
    [roundUp] evaluates the remainder only for a removal. *)
Definition calculateAmmReservesAfterSwap
    (a : AMM) (inputAssetType : AssetType) (swapAmount : Z)
    (swapDirection : SwapDirection) : result (Z * Z) :=
  _ <- assert (ZERO <=? swapAmount) "swapAmount must be greater than 0" ;;
  match inputAssetType with
  | quote =>
      let swapAmountIntermediate := swapAmount * MARK_PRICE_PRECISION in
      swapAmount' <- BN.div swapAmountIntermediate (pegMultiplier a) ;;
      roundUp <-
        (if is_remove swapDirection
         then r <- BN.mod_ swapAmountIntermediate (pegMultiplier a) ;;
              Ok (negb (r =? ZERO))
         else Ok false) ;;
      let swapAmount'' :=
        if (roundUp : bool) then swapAmount' + ONE else swapAmount' in
      '(newQuoteAssetReserve, newBaseAssetReserve) <-
        calculateSwapOutput (quoteAssetReserve a) swapAmount''
          swapDirection (sqrtK a * sqrtK a) ;;
      Ok (newQuoteAssetReserve, newBaseAssetReserve)
  | base =>
      '(newBaseAssetReserve, newQuoteAssetReserve) <-
        calculateSwapOutput (baseAssetReserve a) swapAmount
          swapDirection (sqrtK a * sqrtK a) ;;
      Ok (newQuoteAssetReserve, newBaseAssetReserve)
  end.

(** [isVariant(object, type)]: the tag object has the property [type]. *)
Definition isVariant_long (d : PositionDirection) : bool :=
  match d with LONG => true | SHORT => false end.

Definition isVariant_short (d : PositionDirection) : bool :=
  match d with SHORT => true | LONG => false end.

Definition is_base (t : AssetType) : bool :=
  match t with base => true | quote => false end.

Definition is_quote (t : AssetType) : bool :=
  match t with quote => true | base => false end.

Definition getSwapDirection
    (inputAssetType : AssetType) (positionDirection : PositionDirection)
  : SwapDirection :=
  if isVariant_long positionDirection && is_base inputAssetType then REMOVE
  else if isVariant_short positionDirection && is_quote inputAssetType
  then REMOVE
  else ADD.

Definition calculateTerminalPrice (market : Market) : result Z :=
  let directionToClose :=
    if ZERO <? baseAssetAmount market then SHORT else LONG in
  '(newQuoteAssetReserve, newBaseAssetReserve) <-
    calculateAmmReservesAfterSwap (amm market) base
      (BN.abs (baseAssetAmount market))
      (getSwapDirection base directionToClose) ;;
  x <- BN.div
         (newQuoteAssetReserve * MARK_PRICE_PRECISION
          * pegMultiplier (amm market))
         PEG_PRECISION ;;
  BN.div x newBaseAssetReserve.

Section AdjustK.

(** Modelled from the spec: [calculateBaseAssetValue] (math/position) and
    [calculatePositionPNL] are the external valuation functions of the
    specification's section 6; their code is not among the sources.  They
    are taken as pure functions of a market snapshot and a position record
    that may fail. *)
Variable calculateBaseAssetValue : Market -> NetUserPosition -> result Z.
Variable calculatePositionPNL : Market -> NetUserPosition -> result Z.

(** [Object.assign({}, market)] and [Object.assign({}, market.amm)] copy the
    two records; the three scaled fields are then overwritten in the copy. *)
Definition calculateAdjustKCost
    (market : Market) (marketIndex numerator denomenator : Z) : result Z :=
  let netUserPosition :=
    mkNetUserPosition (baseAssetAmount market)
      (cumulativeFundingRate (amm market)) marketIndex 0 0 in
  currentValue <- calculateBaseAssetValue market netUserPosition ;;
  let marketNewK := market in
  let ammNewK := amm market in
  b <- BN.div (baseAssetReserve (amm market) * numerator) denomenator ;;
  let ammNewK := set_baseAssetReserve b ammNewK in
  q <- BN.div (quoteAssetReserve (amm market) * numerator) denomenator ;;
  let ammNewK := set_quoteAssetReserve q ammNewK in
  s <- BN.div (sqrtK (amm market) * numerator) denomenator ;;
  let ammNewK := set_sqrtK s ammNewK in
  let marketNewK := set_amm ammNewK marketNewK in
  let netUserPosition :=
    set_np_quoteAssetAmount currentValue netUserPosition in
  calculatePositionPNL marketNewK netUserPosition.

End AdjustK.

Section MaxTrade.

(** Modelled from the spec: [squareRootBN] is the integer square root of the
    SDK's index module, whose code is not among the sources; it is a
    parameter of the calculator.  The [console.log] of the last branch does
    not touch the returned value and is left out. *)
Variable squareRootBN : Z -> result Z.

Definition calculateMaxBaseAssetAmountToTrade (a : AMM) (limit_price : Z)
  : result (Z * PositionDirection) :=
  let invariant := sqrtK a * sqrtK a in
  x <- BN.div (invariant * MARK_PRICE_PRECISION * pegMultiplier a)
         limit_price ;;
  newBaseAssetReserveSquared <- BN.div x PEG_PRECISION ;;
  newBaseAssetReserve <- squareRootBN newBaseAssetReserveSquared ;;
  if newBaseAssetReserve >? baseAssetReserve a then
    Ok (newBaseAssetReserve - baseAssetReserve a, SHORT)
  else if newBaseAssetReserve <? baseAssetReserve a then
    Ok (baseAssetReserve a - newBaseAssetReserve, LONG)
  else
    Ok (0, LONG).

End MaxTrade.

(** ** Composition of projections

    A caller composes swaps by storing the projected reserves back into the
    curve state before the next projection; [sqrtK] and the peg stay as they
    are. *)
Definition Swap : Type := (AssetType * Z * SwapDirection)%type.

Definition applySwap (a : AMM) (s : Swap) : result AMM :=
  let '(inputAssetType, swapAmount, swapDirection) := s in
  '(newQuoteAssetReserve, newBaseAssetReserve) <-
    calculateAmmReservesAfterSwap a inputAssetType swapAmount swapDirection ;;
  Ok (set_quoteAssetReserve newQuoteAssetReserve
        (set_baseAssetReserve newBaseAssetReserve a)).

Fixpoint applySwaps (a : AMM) (l : list Swap) : result AMM :=
  match l with
  | [] => Ok a
  | s :: l' => a' <- applySwap a s ;; applySwaps a' l'
  end.

(** The reserve of a projected pair [(newQuote, newBase)] on the side the
    swap amount was denominated in. *)
Definition inputSide (t : AssetType) (r : Z * Z) : Z :=
  match t with
  | quote => fst r
  | base => snd r
  end.

End Amm.

(** ** Repeg cost (math/amm, continued) *)

Definition set_pegMultiplier (v : Z) (a : AMM) : AMM :=
  mkAMM (baseAssetReserve a) (sqrtK a) (cumulativeFundingRate a)
    (lastFundingRate a) (lastFundingRateTs a) (lastMarkPriceTwap a)
    (lastMarkPriceTwapTs a) (lastOraclePriceTwap a)
    (lastOraclePriceTwapTs a) (oracle a) (oracleSource a) (fundingPeriod a)
    (quoteAssetReserve a) v (cumulativeFundingRateLong a)
    (cumulativeFundingRateShort a) (cumulativeRepegRebateLong a)
    (cumulativeRepegRebateShort a) (totalFeeMinusDistributions a)
    (totalFeeWithdrawn a) (totalFee a) (minimumQuoteAssetTradeSize a)
    (minimumBaseAssetTradeSize a).

Section Repeg.

(** Modelled from the spec: besides the two valuation functions,
    [calculateRepegCost] calls [calculateMarkPrice] and [convertToNumber] of
    the SDK's index module for its diagnostic line; their code is not among
    the sources.  They are parameters that may fail; [Number] stands for the
    JavaScript number [convertToNumber] produces. *)
Variable calculateBaseAssetValue : Market -> NetUserPosition -> result Z.
Variable calculatePositionPNL : Market -> NetUserPosition -> result Z.
Variable calculateMarkPrice : Market -> result Z.
Variable Number : Type.
Variable convertToNumber : Z -> result Number.

(** The arguments of [console.log] are evaluated left to right before the
    line is printed; printing itself does not touch the returned value, but
    a failure while computing an argument ends the call. *)
Definition calculateRepegCost (market : Market) (marketIndex newPeg : Z)
  : result Z :=
  let netUserPosition :=
    mkNetUserPosition (baseAssetAmount market)
      (cumulativeFundingRate (amm market)) marketIndex 0 0 in
  currentValue <- calculateBaseAssetValue market netUserPosition ;;
  let netUserPosition :=
    set_np_quoteAssetAmount currentValue netUserPosition in
  prevMarketPrice <- calculateMarkPrice market ;;
  let marketNewPeg := set_amm (set_pegMultiplier newPeg (amm market)) market in
  _ <- convertToNumber prevMarketPrice ;;
  newMarketPrice <- calculateMarkPrice marketNewPeg ;;
  _ <- convertToNumber newMarketPrice ;;
  calculatePositionPNL marketNewPeg netUserPosition.

End Repeg.

(** ** Concrete data for evaluation *)

(** Scales for the concrete evaluations: ten decimal places for prices,
    three for the peg. *)
Definition exampleScales : NumericConstants :=
  {| MARK_PRICE_PRECISION := 10000000000; PEG_PRECISION := 1000 |}.

(** A curve state with the given reserves, [sqrtK] and peg; the fields the
    module never reads are zero. *)
Definition exampleAmm (baseReserve quoteReserve k peg : Z) : AMM :=
  mkAMM baseReserve k 0 0 0 0 0 0 0 EmptyString PYTH 0 quoteReserve peg
    0 0 0 0 0 0 0 0 0.

Definition exampleMarket (a : AMM) (netBase : Z) : Market :=
  mkMarket a netBase 0 0 true 0.

(** Modelled from the spec: a stand-in for [squareRootBN], the truncating
    integer square root of section 4.7, failing with an arithmetic error on
    a negative operand (section 7). *)
Definition squareRootBN_model (n : Z) : result Z :=
  if n <? 0 then Err (ExternalFailure ArithmeticError) else Ok (Z.sqrt n).

(** Modelled from the spec: a stand-in for [calculateBaseAssetValue], the
    value in quote units of a position's base amount on a curve snapshot
    (section 6): the amount times the price of the curve's reserves. *)
Definition baseAssetValue_model {scales : NumericConstants}
    (market : Market) (p : NetUserPosition) : result Z :=
  price <- calculatePrice (baseAssetReserve (amm market))
             (quoteAssetReserve (amm market)) (pegMultiplier (amm market)) ;;
  if price =? 0 then Err (ExternalFailure ArithmeticError)
  else Ok (BN.abs (np_baseAssetAmount p) * price).

(** Modelled from the spec: a stand-in for [calculatePositionPNL], the
    difference between a position's value on the snapshot and the
    [quoteAssetAmount] it carries (section 4.5), signed by the side of the
    position. *)
Definition positionPNL_model {scales : NumericConstants}
    (market : Market) (p : NetUserPosition) : result Z :=
  v <- baseAssetValue_model market p ;;
  if 0 <? np_baseAssetAmount p then Ok (v - np_quoteAssetAmount p)
  else Ok (np_quoteAssetAmount p - v).

(** Modelled from the spec: a stand-in for [calculateMarkPrice], the price
    implied by the curve's current reserves and peg (section 1). *)
Definition markPrice_model {scales : NumericConstants} (market : Market)
  : result Z :=
  calculatePrice (baseAssetReserve (amm market))
    (quoteAssetReserve (amm market)) (pegMultiplier (amm market)).

(** Modelled from the spec: a stand-in for [convertToNumber], whose value is
    only printed (section 4.5); it keeps the integer. *)
Definition convertToNumber_model (n : Z) : result Z := Ok n.

(** * Properties *)

(** ** Helper facts on the error monad and truncating division *)

Lemma bind_Ok_inv {A B : Type} (r : result A) (k : A -> result B) (b : B) :
  bind r k = Ok b -> exists a, r = Ok a /\ k a = Ok b.
Proof.
  destruct r as [a | e]; simpl; intros H.
  - exists a; split; [reflexivity | exact H].
  - discriminate H.
Qed.

Lemma bind_pair_eta {A B : Type} (r : result (A * B)) :
  ('(x, y) <- r ;; Ok (x, y)) = r.
Proof. destruct r as [[x y] | e]; reflexivity. Qed.

Lemma BN_div_nonzero (a b : Z) : b <> 0 -> BN.div a b = Ok (Z.quot a b).
Proof.
  intros Hb. unfold BN.div.
  destruct (Z.eqb_spec b 0) as [E | _]; [contradiction | reflexivity].
Qed.

Lemma BN_div_Ok_inv (a b q : Z) :
  BN.div a b = Ok q -> b <> 0 /\ q = Z.quot a b.
Proof.
  unfold BN.div. destruct (Z.eqb_spec b 0) as [E | N]; intros H.
  - discriminate H.
  - injection H as <-. split; [exact N | reflexivity].
Qed.

Lemma BN_mod_nonzero (a b : Z) : b <> 0 -> BN.mod_ a b = Ok (Z.rem a b).
Proof.
  intros Hb. unfold BN.mod_.
  destruct (Z.eqb_spec b 0) as [E | _]; [contradiction | reflexivity].
Qed.

(** Truncation loses less than one divisor, and never overshoots a
    non-negative dividend. *)
Lemma quot_defect (k n : Z) :
  0 <= k -> n <> 0 -> 0 <= k - n * Z.quot k n < Z.abs n.
Proof.
  intros Hk Hn.
  pose proof (Z.quot_rem' k n) as E.
  pose proof (Z.rem_nonneg k n Hn Hk) as Hlo.
  pose proof (Z.rem_bound_abs k n Hn) as Hhi.
  rewrite (Z.abs_eq (Z.rem k n)) in Hhi by exact Hlo.
  lia.
Qed.

Section AmmFacts.

Context {scales : NumericConstants}.

Lemma calculateSwapOutput_eq (r amt : Z) (d : SwapDirection) (k : Z) :
  calculateSwapOutput r amt d k =
  (o <- BN.div k (newInputAssetReserve_of r amt d) ;;
   Ok (newInputAssetReserve_of r amt d, o)).
Proof. destruct d; reflexivity. Qed.

Lemma calculateSwapOutput_Ok_inv (r amt : Z) (d : SwapDirection) (k i o : Z) :
  calculateSwapOutput r amt d k = Ok (i, o) ->
  i = newInputAssetReserve_of r amt d /\ i <> 0 /\ o = Z.quot k i.
Proof.
  rewrite calculateSwapOutput_eq. intros H.
  apply bind_Ok_inv in H. destruct H as (o' & Hdiv & Hret).
  injection Hret as <- <-.
  apply BN_div_Ok_inv in Hdiv. destruct Hdiv as [Hn Ho].
  repeat split; assumption.
Qed.

(** *** Price Calculator *)

(** C4: [calculatePrice] returns 0 when [|baseAssetAmount| = 0] and otherwise
    [quoteAssetAmount * MARK_PRICE_PRECISION * peg_multiplier / PEG_PRECISION
    / baseAssetAmount], both divisions truncating and applied left to right
    in that order. *)
Theorem calculatePrice_spec (baseAssetAmount quoteAssetAmount peg_multiplier : Z) :
  PEG_PRECISION <> 0 ->
  calculatePrice baseAssetAmount quoteAssetAmount peg_multiplier =
  Ok (if Z.abs baseAssetAmount =? 0 then 0
      else Z.quot
             (Z.quot
                (quoteAssetAmount * MARK_PRICE_PRECISION * peg_multiplier)
                PEG_PRECISION)
             baseAssetAmount).
Proof.
  intros Hpeg. unfold calculatePrice, BN.abs, ZERO.
  destruct (Z.leb_spec (Z.abs baseAssetAmount) 0) as [Hle | Hgt].
  - replace (Z.abs baseAssetAmount =? 0) with true; [reflexivity |].
    symmetry. apply Z.eqb_eq. pose proof (Z.abs_nonneg baseAssetAmount). lia.
  - replace (Z.abs baseAssetAmount =? 0) with false
      by (symmetry; apply Z.eqb_neq; lia).
    rewrite (BN_div_nonzero _ _ Hpeg). simpl.
    apply BN_div_nonzero. intros ->. simpl in Hgt. lia.
Qed.

(** *** Direction Resolver *)

(** C5: the four (trading direction, denomination) pairs resolve as in the
    table: (Long, Base) and (Short, Quote) remove, (Long, Quote) and
    (Short, Base) add; nothing but Add or Remove comes out. *)
Theorem getSwapDirection_table :
  getSwapDirection base LONG = REMOVE /\
  getSwapDirection quote SHORT = REMOVE /\
  getSwapDirection quote LONG = ADD /\
  getSwapDirection base SHORT = ADD /\
  (forall t d, getSwapDirection t d = ADD \/ getSwapDirection t d = REMOVE).
Proof.
  repeat split; try reflexivity.
  intros [ | ] [ | ]; cbv; auto.
Qed.

(** *** Swap Simulator *)

(** C2, as the code has it: [calculateSwapOutput] fails exactly when the new
    input reserve is zero, with the division-by-zero failure of bn.js (an
    arithmetic error); on any other new input reserve, a negative one
    included, it returns that reserve and the truncated quotient of the
    invariant by it. *)
Theorem calculateSwapOutput_fails_iff_zero
    (inputAssetReserve swapAmount : Z) (swapDirection : SwapDirection)
    (invariant : Z) :
  let n := newInputAssetReserve_of inputAssetReserve swapAmount swapDirection in
  (n = 0 <->
   calculateSwapOutput inputAssetReserve swapAmount swapDirection invariant
   = Err BNDivisionByZero) /\
  (n <> 0 ->
   calculateSwapOutput inputAssetReserve swapAmount swapDirection invariant
   = Ok (n, Z.quot invariant n)).
Proof.
  intros n. rewrite calculateSwapOutput_eq. fold n.
  unfold BN.div. destruct (Z.eqb_spec n 0) as [E | N]; simpl.
  - split; [tauto | contradiction].
  - split; [| reflexivity]. split; [contradiction | discriminate].
Qed.

(** *** Reserve Projector *)

Lemma assert_swapAmount_ok (swapAmount : Z) (msg : string) :
  0 <= swapAmount -> assert (ZERO <=? swapAmount) msg = Ok tt.
Proof.
  intros H. unfold assert, ZERO.
  destruct (Z.leb_spec 0 swapAmount); [reflexivity | lia].
Qed.

Lemma calculateAmmReservesAfterSwap_base (a : AMM) (swapAmount : Z)
    (swapDirection : SwapDirection) :
  0 <= swapAmount ->
  calculateAmmReservesAfterSwap a base swapAmount swapDirection =
  ('(b, q) <- calculateSwapOutput (baseAssetReserve a) swapAmount
                swapDirection (sqrtK a * sqrtK a) ;;
   Ok (q, b)).
Proof.
  intros H. unfold calculateAmmReservesAfterSwap.
  rewrite (assert_swapAmount_ok _ _ H). reflexivity.
Qed.

Lemma calculateAmmReservesAfterSwap_negative (a : AMM) (t : AssetType)
    (swapAmount : Z) (swapDirection : SwapDirection) :
  swapAmount < 0 ->
  calculateAmmReservesAfterSwap a t swapAmount swapDirection =
  Err (AssertFailed "swapAmount must be greater than 0").
Proof.
  intros H. unfold calculateAmmReservesAfterSwap, assert, ZERO.
  destruct (Z.leb_spec 0 swapAmount); [lia | reflexivity].
Qed.

(** The amount the quote path hands to the simulator. *)
Lemma calculateAmmReservesAfterSwap_quote (a : AMM) (swapAmount : Z)
    (swapDirection : SwapDirection) :
  0 <= swapAmount ->
  pegMultiplier a <> 0 ->
  calculateAmmReservesAfterSwap a quote swapAmount swapDirection =
  calculateSwapOutput (quoteAssetReserve a)
    (Z.quot (swapAmount * MARK_PRICE_PRECISION) (pegMultiplier a)
     + (if is_remove swapDirection
           && negb (Z.rem (swapAmount * MARK_PRICE_PRECISION)
                      (pegMultiplier a) =? 0)
        then 1 else 0))
    swapDirection (sqrtK a * sqrtK a).
Proof.
  intros Hamt Hpeg. unfold calculateAmmReservesAfterSwap.
  rewrite (assert_swapAmount_ok _ _ Hamt). cbn [bind].
  rewrite (BN_div_nonzero _ _ Hpeg). cbn [bind].
  rewrite (BN_mod_nonzero _ _ Hpeg). unfold ZERO, ONE.
  destruct swapDirection; cbn [is_remove andb bind].
  - rewrite Z.add_0_r. apply bind_pair_eta.
  - destruct (Z.rem (swapAmount * MARK_PRICE_PRECISION) (pegMultiplier a) =? 0);
      cbn [negb]; [rewrite Z.add_0_r |]; apply bind_pair_eta.
Qed.

(** C6: on the quote path the simulator receives the truncated conversion
    [swapAmount * MARK_PRICE_PRECISION / pegMultiplier], plus 1 exactly
    when the direction is Remove and the conversion left a nonzero
    remainder; it is applied to the quote reserve with invariant
    [sqrtK * sqrtK], and its pair is returned as it is. *)
Theorem quote_swap_amount_conversion (a : AMM) (swapAmount : Z)
    (swapDirection : SwapDirection) :
  0 <= swapAmount ->
  pegMultiplier a <> 0 ->
  let converted :=
    Z.quot (swapAmount * MARK_PRICE_PRECISION) (pegMultiplier a) in
  let dropped :=
    Z.rem (swapAmount * MARK_PRICE_PRECISION) (pegMultiplier a) in
  let swapAmountNative :=
    converted
    + (if is_remove swapDirection && negb (dropped =? 0) then 1 else 0) in
  calculateAmmReservesAfterSwap a quote swapAmount swapDirection =
  calculateSwapOutput (quoteAssetReserve a) swapAmountNative swapDirection
    (sqrtK a * sqrtK a) /\
  (swapAmountNative = converted + 1 <->
   swapDirection = REMOVE /\ dropped <> 0) /\
  (swapAmountNative = converted <->
   ~ (swapDirection = REMOVE /\ dropped <> 0)).
Proof.
  intros Hamt Hpeg converted dropped swapAmountNative.
  split.
  - apply calculateAmmReservesAfterSwap_quote; assumption.
  - unfold swapAmountNative.
    destruct swapDirection; cbn [is_remove andb].
    + rewrite Z.add_0_r. intuition (try lia; try discriminate).
    + destruct (Z.eqb_spec dropped 0) as [E | N]; cbn [negb].
      * rewrite Z.add_0_r. intuition (try lia; try discriminate).
      * intuition (try lia; try discriminate).
Qed.

(** C10: on the base path the projection reads only [baseAssetReserve] and
    [sqrtK]; two curve states that agree on these give the same result,
    whatever their peg multipliers (and other fields) are. *)
Theorem base_swap_independent_of_peg (a1 a2 : AMM) (swapAmount : Z)
    (swapDirection : SwapDirection) :
  baseAssetReserve a1 = baseAssetReserve a2 ->
  sqrtK a1 = sqrtK a2 ->
  calculateAmmReservesAfterSwap a1 base swapAmount swapDirection =
  calculateAmmReservesAfterSwap a2 base swapAmount swapDirection.
Proof.
  intros Hb Hk. unfold calculateAmmReservesAfterSwap.
  rewrite Hb, Hk. reflexivity.
Qed.

(** C7, as the code has it: on a curve state whose reserves multiply to
    [sqrtK * sqrtK] exactly, with nonzero reserves and peg, a zero swap
    amount gives the reserves back unchanged, for either denomination and
    direction. *)
Theorem zero_amount_identity (a : AMM) (t : AssetType)
    (swapDirection : SwapDirection) :
  baseAssetReserve a * quoteAssetReserve a = sqrtK a * sqrtK a ->
  baseAssetReserve a <> 0 ->
  quoteAssetReserve a <> 0 ->
  pegMultiplier a <> 0 ->
  calculateAmmReservesAfterSwap a t 0 swapDirection =
  Ok (quoteAssetReserve a, baseAssetReserve a).
Proof.
  intros Hinv Hb Hq Hpeg. destruct t.
  - rewrite calculateAmmReservesAfterSwap_quote by (lia || assumption).
    rewrite Z.mul_0_l, Z.quot_0_l, Z.rem_0_l by assumption.
    rewrite andb_false_r, Z.add_0_r.
    rewrite calculateSwapOutput_eq.
    replace (newInputAssetReserve_of (quoteAssetReserve a) 0 swapDirection)
      with (quoteAssetReserve a) by (destruct swapDirection; simpl; lia).
    rewrite (BN_div_nonzero _ _ Hq), <- Hinv. cbn [bind].
    rewrite Z.quot_mul by assumption. reflexivity.
  - rewrite calculateAmmReservesAfterSwap_base by lia.
    rewrite calculateSwapOutput_eq.
    replace (newInputAssetReserve_of (baseAssetReserve a) 0 swapDirection)
      with (baseAssetReserve a) by (destruct swapDirection; simpl; lia).
    rewrite (BN_div_nonzero _ _ Hb), <- Hinv. cbn [bind].
    rewrite (Z.mul_comm (baseAssetReserve a)), Z.quot_mul by assumption.
    reflexivity.
Qed.

(** A base-path projection that returns has divided by its new base reserve,
    which is therefore not zero. *)
Lemma base_projection_Ok_inv (a : AMM) (swapAmount : Z)
    (swapDirection : SwapDirection) (q b : Z) :
  calculateAmmReservesAfterSwap a base swapAmount swapDirection = Ok (q, b) ->
  0 <= swapAmount /\
  b = newInputAssetReserve_of (baseAssetReserve a) swapAmount swapDirection /\
  b <> 0 /\ q = Z.quot (sqrtK a * sqrtK a) b.
Proof.
  intros H.
  destruct (Z.lt_ge_cases swapAmount 0) as [Hneg | Hpos].
  - rewrite calculateAmmReservesAfterSwap_negative in H by exact Hneg.
    discriminate H.
  - rewrite calculateAmmReservesAfterSwap_base in H by exact Hpos.
    apply bind_Ok_inv in H. destruct H as ([b' q'] & Hout & Hret).
    injection Hret as <- <-.
    apply calculateSwapOutput_Ok_inv in Hout.
    destruct Hout as (Hb & Hnz & Hq). repeat split; assumption.
Qed.

Lemma quote_projection_Ok_inv (a : AMM) (swapAmount : Z)
    (swapDirection : SwapDirection) (q b : Z) :
  calculateAmmReservesAfterSwap a quote swapAmount swapDirection = Ok (q, b) ->
  q <> 0 /\ b = Z.quot (sqrtK a * sqrtK a) q.
Proof.
  intros H.
  destruct (Z.lt_ge_cases swapAmount 0) as [Hneg | Hpos].
  - rewrite calculateAmmReservesAfterSwap_negative in H by exact Hneg.
    discriminate H.
  - destruct (Z.eq_dec (pegMultiplier a) 0) as [Hz | Hnz].
    + unfold calculateAmmReservesAfterSwap in H.
      rewrite (assert_swapAmount_ok _ _ Hpos), Hz in H.
      discriminate H.
    + rewrite calculateAmmReservesAfterSwap_quote in H by assumption.
      apply calculateSwapOutput_Ok_inv in H.
      destruct H as (_ & Hq & Hb). split; assumption.
Qed.

(** *** Terminal Price Calculator *)

(** C8: [calculateTerminalPrice] closes the net position with a Short trade
    when [baseAssetAmount > 0] and a Long trade otherwise, projects the
    reserves after swapping [|baseAssetAmount|] base units in that
    direction, and its result is [calculatePrice] of the new base reserve,
    the new quote reserve and the market's peg multiplier (a failure of
    the projection is the failure of the whole). *)
Theorem calculateTerminalPrice_spec (market : Market) :
  calculateTerminalPrice market =
  (let directionToClose :=
     if 0 <? baseAssetAmount market then SHORT else LONG in
   '(newQuoteAssetReserve, newBaseAssetReserve) <-
     calculateAmmReservesAfterSwap (amm market) base
       (Z.abs (baseAssetAmount market))
       (getSwapDirection base directionToClose) ;;
   calculatePrice newBaseAssetReserve newQuoteAssetReserve
     (pegMultiplier (amm market))).
Proof.
  unfold calculateTerminalPrice, BN.abs, ZERO. cbv zeta.
  destruct (calculateAmmReservesAfterSwap (amm market) base
              (Z.abs (baseAssetAmount market))
              (getSwapDirection base
                 (if 0 <? baseAssetAmount market then SHORT else LONG)))
    as [[q b] | e] eqn:E; cbn [bind]; [| reflexivity].
  apply base_projection_Ok_inv in E. destruct E as (_ & _ & Hb & _).
  unfold calculatePrice, BN.abs, ZERO.
  destruct (Z.leb_spec (Z.abs b) 0) as [Hle | _]; [| reflexivity].
  exfalso. apply Hb. pose proof (Z.abs_nonneg b). lia.
Qed.

(** *** Invariant of the projected reserves *)

Lemma applySwap_sqrtK (a a' : AMM) (s : Swap) :
  applySwap a s = Ok a' -> sqrtK a' = sqrtK a.
Proof.
  destruct s as [[t amt] d]. unfold applySwap. intros H.
  apply bind_Ok_inv in H. destruct H as ([q b] & _ & Hret).
  injection Hret as <-. reflexivity.
Qed.

Lemma applySwaps_sqrtK (l : list Swap) :
  forall a a', applySwaps a l = Ok a' -> sqrtK a' = sqrtK a.
Proof.
  induction l as [| s l IH]; intros a a' H; simpl in H.
  - injection H as <-. reflexivity.
  - apply bind_Ok_inv in H. destruct H as (a1 & Hstep & Hrest).
    rewrite (IH _ _ Hrest). exact (applySwap_sqrtK _ _ _ Hstep).
Qed.

(** One projection: the product of the returned reserves falls short of
    [sqrtK * sqrtK] by the remainder of the truncated division, which is
    less than the new input-side reserve. *)
Lemma projection_defect (a : AMM) (t : AssetType) (swapAmount : Z)
    (swapDirection : SwapDirection) (r : Z * Z) :
  calculateAmmReservesAfterSwap a t swapAmount swapDirection = Ok r ->
  0 <= sqrtK a * sqrtK a - fst r * snd r < Z.abs (inputSide t r).
Proof.
  destruct r as [q b]. intros H.
  pose proof (Z.square_nonneg (sqrtK a)) as Hk.
  destruct t; cbn [inputSide fst snd].
  - apply quote_projection_Ok_inv in H. destruct H as [Hq ->].
    exact (quot_defect _ _ Hk Hq).
  - apply base_projection_Ok_inv in H. destruct H as (_ & _ & Hb & ->).
    rewrite (Z.mul_comm (Z.quot _ _) b). exact (quot_defect _ _ Hk Hb).
Qed.

(** An addition to positive reserves always returns. *)
Lemma add_projection_returns (a : AMM) (t : AssetType) (swapAmount : Z) :
  0 <= MARK_PRICE_PRECISION ->
  0 < baseAssetReserve a -> 0 < quoteAssetReserve a ->
  0 < pegMultiplier a -> 0 <= swapAmount ->
  exists r, calculateAmmReservesAfterSwap a t swapAmount ADD = Ok r
            /\ 0 < inputSide t r.
Proof.
  intros Hm Hb Hq Hp Hs. destruct t.
  - rewrite calculateAmmReservesAfterSwap_quote by lia.
    cbn [is_remove andb]. rewrite Z.add_0_r.
    assert (0 <= swapAmount * MARK_PRICE_PRECISION) as Hi
      by (apply Z.mul_nonneg_nonneg; assumption).
    pose proof (Z.quot_pos _ (pegMultiplier a) Hi Hp) as Hc.
    rewrite calculateSwapOutput_eq. cbn [newInputAssetReserve_of].
    rewrite BN_div_nonzero by lia. cbn [bind].
    eexists; split; [reflexivity |]. cbn [inputSide fst]. lia.
  - rewrite calculateAmmReservesAfterSwap_base by lia.
    rewrite calculateSwapOutput_eq. cbn [newInputAssetReserve_of].
    rewrite BN_div_nonzero by lia. cbn [bind].
    eexists; split; [reflexivity |]. cbn [inputSide snd]. lia.
Qed.

(** C1, as the code has it: after any sequence of composed swaps, a
    projection that returns gives reserves whose product is at most
    [sqrtK * sqrtK] and falls short of it by less than the new input-side
    reserve (the remainder of the truncated division by that reserve).
    Every projection divides the original [sqrtK * sqrtK], so the shortfall
    of earlier steps is not carried along. *)
Theorem projection_product_bound (a : AMM) (history : list Swap) (a1 : AMM)
    (t : AssetType) (swapAmount : Z) (swapDirection : SwapDirection)
    (r : Z * Z) :
  applySwaps a history = Ok a1 ->
  calculateAmmReservesAfterSwap a1 t swapAmount swapDirection = Ok r ->
  0 <= sqrtK a * sqrtK a - fst r * snd r < Z.abs (inputSide t r).
Proof.
  intros Hhist Hcall.
  rewrite <- (applySwaps_sqrtK _ _ _ Hhist).
  exact (projection_defect _ _ _ _ _ Hcall).
Qed.

(** *** Max-Trade-Under-Limit Calculator *)

(** C3, as the code has it: no argument check precedes the division by
    [limit_price].  With a zero limit the call fails in that division, with
    the division-by-zero failure of bn.js; with a negative limit the
    division is carried out and the call goes on with the truncated
    quotient to the square root. *)
Theorem maxTrade_nonpositive_limit
    (squareRootBN : Z -> result Z) (a : AMM) (limit_price : Z) :
  limit_price <= 0 ->
  PEG_PRECISION <> 0 ->
  calculateMaxBaseAssetAmountToTrade squareRootBN a limit_price =
  if limit_price =? 0 then Err BNDivisionByZero
  else
    newBaseAssetReserve <-
      squareRootBN
        (Z.quot
           (Z.quot (sqrtK a * sqrtK a * MARK_PRICE_PRECISION * pegMultiplier a)
              limit_price)
           PEG_PRECISION) ;;
    Ok (if newBaseAssetReserve >? baseAssetReserve a
        then (newBaseAssetReserve - baseAssetReserve a, SHORT)
        else if newBaseAssetReserve <? baseAssetReserve a
        then (baseAssetReserve a - newBaseAssetReserve, LONG)
        else (0, LONG)).
Proof.
  intros _ Hpeg. unfold calculateMaxBaseAssetAmountToTrade. cbv zeta.
  destruct (Z.eqb_spec limit_price 0) as [-> | Hlp].
  - reflexivity.
  - rewrite (BN_div_nonzero _ _ Hlp). cbn [bind].
    rewrite (BN_div_nonzero _ _ Hpeg). cbn [bind].
    destruct (squareRootBN _) as [nb | e]; cbn [bind]; [| reflexivity].
    destruct (nb >? baseAssetReserve a); [reflexivity |].
    destruct (nb <? baseAssetReserve a); reflexivity.
Qed.

End AmmFacts.

(** *** k-adjustment cost *)

Lemma scaled_amm_identity (a : AMM) (n : Z) :
  n <> 0 ->
  set_sqrtK (Z.quot (sqrtK a * n) n)
    (set_quoteAssetReserve (Z.quot (quoteAssetReserve a * n) n)
       (set_baseAssetReserve (Z.quot (baseAssetReserve a * n) n) a)) = a.
Proof.
  intros Hn. rewrite !Z.quot_mul by exact Hn.
  destruct a; reflexivity.
Qed.

Lemma set_amm_same (market : Market) : set_amm (amm market) market = market.
Proof. destruct market; reflexivity. Qed.

Section AdjustKFacts.

Context {scales : NumericConstants}.

Variable calculateBaseAssetValue : Market -> NetUserPosition -> result Z.
Variable calculatePositionPNL : Market -> NetUserPosition -> result Z.

(** The valuation of a position's base amount does not read the
    [quoteAssetAmount] the record carries. *)
Hypothesis value_ignores_quote :
  forall market p q,
    calculateBaseAssetValue market (set_np_quoteAssetAmount q p) =
    calculateBaseAssetValue market p.

(** The PnL is the difference between the position's value on the market
    and its [quoteAssetAmount]: nothing when the two agree. *)
Hypothesis pnl_is_delta :
  forall market p,
    calculateBaseAssetValue market p = Ok (np_quoteAssetAmount p) ->
    calculatePositionPNL market p = Ok 0.

(** With [numerator = denomenator <> 0] the hypothetical market is the
    original one. *)
Lemma calculateAdjustKCost_same_market
    (market : Market) (marketIndex n : Z) :
  n <> 0 ->
  calculateAdjustKCost calculateBaseAssetValue calculatePositionPNL
    market marketIndex n n =
  (let netUserPosition :=
     mkNetUserPosition (baseAssetAmount market)
       (cumulativeFundingRate (amm market)) marketIndex 0 0 in
   currentValue <- calculateBaseAssetValue market netUserPosition ;;
   calculatePositionPNL market
     (set_np_quoteAssetAmount currentValue netUserPosition)).
Proof.
  intros Hn. unfold calculateAdjustKCost. cbv zeta.
  destruct (calculateBaseAssetValue market _) as [v | e]; cbn [bind];
    [| reflexivity].
  rewrite !(BN_div_nonzero _ _ Hn). cbn [bind].
  rewrite (scaled_amm_identity _ _ Hn), set_amm_same. reflexivity.
Qed.

(** C9: with numerator and denominator both equal to a nonzero [n], the
    k-adjustment cost is 0 for any net position whose valuation on the
    market succeeds; a failure of that valuation is passed on. *)
Theorem calculateAdjustKCost_neutral
    (market : Market) (marketIndex n : Z) :
  n <> 0 ->
  calculateAdjustKCost calculateBaseAssetValue calculatePositionPNL
    market marketIndex n n =
  (_ <- calculateBaseAssetValue market
          (mkNetUserPosition (baseAssetAmount market)
             (cumulativeFundingRate (amm market)) marketIndex 0 0) ;;
   Ok 0).
Proof.
  intros Hn. rewrite (calculateAdjustKCost_same_market _ _ _ Hn). cbv zeta.
  destruct (calculateBaseAssetValue market _) as [v | e] eqn:E; cbn [bind];
    [| reflexivity].
  apply pnl_is_delta. rewrite value_ignores_quote. exact E.
Qed.

End AdjustKFacts.

(** ** Concrete evaluations *)

Section Evaluations.

#[local] Existing Instance exampleScales.

(** The stand-ins for the external valuation functions meet the two
    assumptions of the k-adjustment theorem. *)
Lemma baseAssetValue_model_ignores_quote (market : Market)
    (p : NetUserPosition) (q : Z) :
  baseAssetValue_model market (set_np_quoteAssetAmount q p) =
  baseAssetValue_model market p.
Proof. reflexivity. Qed.

Lemma positionPNL_model_is_delta (market : Market) (p : NetUserPosition) :
  baseAssetValue_model market p = Ok (np_quoteAssetAmount p) ->
  positionPNL_model market p = Ok 0.
Proof.
  intros H. unfold positionPNL_model. rewrite H. cbn [bind].
  destruct (0 <? np_baseAssetAmount p); f_equal; lia.
Qed.

(** *** C1 *)

(** Adding 3 base units to the curve (10, 10) with [sqrtK = 10] gives the
    reserves (7, 13): their product is 91, nine short of 100. *)
Lemma product_off_by_more_than_one :
  0 <= 3 /\
  0 < baseAssetReserve (exampleAmm 10 10 10 1000) /\
  0 < quoteAssetReserve (exampleAmm 10 10 10 1000) /\
  calculateAmmReservesAfterSwap (exampleAmm 10 10 10 1000) base 3 ADD
  = Ok (7, 13) /\
  ~ (Z.abs (13 * 7 - 10 * 10) <= 1).
Proof.
  repeat split; try reflexivity; try discriminate.
  cbn. lia.
Qed.

Lemma projection_product_bound_witness :
  applySwaps (exampleAmm 10 10 10 1000) [(base, 3, ADD); (base, 4, REMOVE)]
  = Ok (exampleAmm 9 11 10 1000) /\
  calculateAmmReservesAfterSwap (exampleAmm 9 11 10 1000) base 2 ADD
  = Ok (9, 11) /\
  0 <= 10 * 10 - 9 * 11 < 11.
Proof.
  assert (H1 : applySwaps (exampleAmm 10 10 10 1000)
                 [(base, 3, ADD); (base, 4, REMOVE)]
               = Ok (exampleAmm 9 11 10 1000)) by reflexivity.
  assert (H2 : calculateAmmReservesAfterSwap (exampleAmm 9 11 10 1000)
                 base 2 ADD = Ok (9, 11)) by reflexivity.
  split; [exact H1 |]. split; [exact H2 |].
  exact (projection_product_bound _ _ _ _ _ _ _ H1 H2).
Defined.

(** *** C2 *)

(** Removing 8 from an input reserve of 5 leaves -3: the simulator divides
    by it and returns. *)
Lemma negative_reserve_returns :
  newInputAssetReserve_of 5 8 REMOVE <= 0 /\
  calculateSwapOutput 5 8 REMOVE 100 = Ok (-3, -33).
Proof. split; [cbn; lia | reflexivity]. Qed.

Lemma calculateSwapOutput_fails_iff_zero_witness :
  calculateSwapOutput 10 10 REMOVE 100 = Err BNDivisionByZero /\
  calculateSwapOutput 3 9 REMOVE 100 = Ok (-6, -16).
Proof.
  split.
  - apply (proj1 (calculateSwapOutput_fails_iff_zero 10 10 REMOVE 100)).
    reflexivity.
  - apply (proj2 (calculateSwapOutput_fails_iff_zero 3 9 REMOVE 100)).
    discriminate.
Defined.

(** *** C3 *)

(** With a zero limit the call fails, but not with an invalid-argument
    failure: it is the division that throws. *)
Lemma zero_limit_not_invalid_argument :
  ~ (exists e,
       calculateMaxBaseAssetAmountToTrade squareRootBN_model
         (exampleAmm 1000000 1000000 1000000 1000) 0 = Err e /\
       error_kind e = InvalidArgument).
Proof.
  intros (e & H & Hk).
  assert (E : calculateMaxBaseAssetAmountToTrade squareRootBN_model
                (exampleAmm 1000000 1000000 1000000 1000) 0
              = Err BNDivisionByZero) by reflexivity.
  rewrite E in H. injection H as <-. discriminate Hk.
Qed.

Lemma maxTrade_nonpositive_limit_witness :
  -100000000000000000000000 <= 0 /\
  PEG_PRECISION <> 0 /\
  calculateMaxBaseAssetAmountToTrade squareRootBN_model
    (exampleAmm 1000000 1000000 1000000 1000) (-100000000000000000000000)
  = Ok (1000000, LONG).
Proof.
  assert (H1 : -100000000000000000000000 <= 0) by lia.
  assert (H2 : PEG_PRECISION <> 0) by (cbn; lia).
  split; [exact H1 |]. split; [exact H2 |].
  exact (maxTrade_nonpositive_limit squareRootBN_model
           (exampleAmm 1000000 1000000 1000000 1000)
           (-100000000000000000000000) H1 H2).
Defined.

(** *** C4 *)

Lemma calculatePrice_spec_witness :
  PEG_PRECISION <> 0 /\ calculatePrice 3 7 1500 = Ok 35000000000.
Proof.
  assert (H : PEG_PRECISION <> 0) by (cbn; lia).
  split; [exact H | exact (calculatePrice_spec 3 7 1500 H)].
Defined.

(** *** C6 *)

Lemma quote_swap_amount_conversion_witness :
  0 <= 7 /\
  pegMultiplier
    (exampleAmm 1000000000000 1000000000000 1000000000000 1500) <> 0 /\
  calculateAmmReservesAfterSwap
    (exampleAmm 1000000000000 1000000000000 1000000000000 1500)
    quote 7 REMOVE
  = calculateSwapOutput 1000000000000 (46666666 + 1) REMOVE
      (1000000000000 * 1000000000000).
Proof.
  assert (H1 : 0 <= 7) by lia.
  assert (H2 : pegMultiplier
                 (exampleAmm 1000000000000 1000000000000 1000000000000 1500)
               <> 0) by (cbn; lia).
  split; [exact H1 |]. split; [exact H2 |].
  exact (proj1 (quote_swap_amount_conversion
                  (exampleAmm 1000000000000 1000000000000 1000000000000 1500)
                  7 REMOVE H1 H2)).
Defined.

(** *** C7 *)

(** The state (base 13, quote 7) is what the projector itself returns for 3
    base units added to (10, 10); a zero quote swap on it recomputes the
    base reserve as 100 / 7 = 14. *)
Lemma zero_amount_changes_reserves :
  applySwap (exampleAmm 10 10 10 1000) (base, 3, ADD)
  = Ok (exampleAmm 13 7 10 1000) /\
  calculateAmmReservesAfterSwap (exampleAmm 13 7 10 1000) quote 0 ADD
  = Ok (7, 14) /\
  calculateAmmReservesAfterSwap (exampleAmm 13 7 10 1000) quote 0 ADD
  <> Ok (quoteAssetReserve (exampleAmm 13 7 10 1000),
         baseAssetReserve (exampleAmm 13 7 10 1000)).
Proof.
  split; [reflexivity |]. split; [reflexivity |]. discriminate.
Qed.

Lemma zero_amount_identity_witness :
  baseAssetReserve (exampleAmm 2000 500 1000 1500)
  * quoteAssetReserve (exampleAmm 2000 500 1000 1500)
  = sqrtK (exampleAmm 2000 500 1000 1500)
    * sqrtK (exampleAmm 2000 500 1000 1500) /\
  baseAssetReserve (exampleAmm 2000 500 1000 1500) <> 0 /\
  quoteAssetReserve (exampleAmm 2000 500 1000 1500) <> 0 /\
  pegMultiplier (exampleAmm 2000 500 1000 1500) <> 0 /\
  calculateAmmReservesAfterSwap (exampleAmm 2000 500 1000 1500)
    quote 0 REMOVE
  = Ok (500, 2000).
Proof.
  assert (Hb : baseAssetReserve (exampleAmm 2000 500 1000 1500) <> 0)
    by (cbn; lia).
  assert (Hq : quoteAssetReserve (exampleAmm 2000 500 1000 1500) <> 0)
    by (cbn; lia).
  assert (Hp : pegMultiplier (exampleAmm 2000 500 1000 1500) <> 0)
    by (cbn; lia).
  split; [reflexivity |]. split; [exact Hb |].
  split; [exact Hq |]. split; [exact Hp |].
  exact (zero_amount_identity (exampleAmm 2000 500 1000 1500) quote REMOVE
           eq_refl Hb Hq Hp).
Defined.

(** *** C9 *)

Lemma calculateAdjustKCost_neutral_witness :
  7 <> 0 /\
  calculateAdjustKCost baseAssetValue_model positionPNL_model
    (exampleMarket (exampleAmm 1000000 1000000 1000000 1000) 500) 0 7 7
  = Ok 0.
Proof.
  assert (H : 7 <> 0) by lia.
  split; [exact H |].
  exact (calculateAdjustKCost_neutral baseAssetValue_model positionPNL_model
           baseAssetValue_model_ignores_quote positionPNL_model_is_delta
           (exampleMarket (exampleAmm 1000000 1000000 1000000 1000) 500)
           0 7 H).
Defined.

(** *** C10 *)

Lemma base_swap_independent_of_peg_witness :
  baseAssetReserve (exampleAmm 1000 5 100 1000)
  = baseAssetReserve (exampleAmm 1000 77 100 2500) /\
  sqrtK (exampleAmm 1000 5 100 1000) = sqrtK (exampleAmm 1000 77 100 2500) /\
  pegMultiplier (exampleAmm 1000 5 100 1000)
  <> pegMultiplier (exampleAmm 1000 77 100 2500) /\
  calculateAmmReservesAfterSwap (exampleAmm 1000 5 100 1000) base 30 REMOVE
  = calculateAmmReservesAfterSwap (exampleAmm 1000 77 100 2500)
      base 30 REMOVE.
Proof.
  split; [reflexivity |]. split; [reflexivity |].
  split; [cbn; lia |].
  apply base_swap_independent_of_peg; reflexivity.
Defined.

End Evaluations.

(** * Further properties of the module *)

Section ProjectorFacts.

Context {scales : NumericConstants}.

(** ** Outcomes of the Reserve Projector *)

Lemma calculateSwapOutput_zero_divisor (r amt : Z) (d : SwapDirection) (k : Z) :
  newInputAssetReserve_of r amt d = 0 ->
  calculateSwapOutput r amt d k = Err BNDivisionByZero.
Proof. intros H. rewrite calculateSwapOutput_eq, H. reflexivity. Qed.

Lemma calculateSwapOutput_returns (r amt : Z) (d : SwapDirection) (k : Z) :
  newInputAssetReserve_of r amt d <> 0 ->
  calculateSwapOutput r amt d k =
  Ok (newInputAssetReserve_of r amt d,
      Z.quot k (newInputAssetReserve_of r amt d)).
Proof.
  intros H. rewrite calculateSwapOutput_eq, (BN_div_nonzero _ _ H).
  reflexivity.
Qed.

Lemma calculateAmmReservesAfterSwap_zero_peg (a : AMM) (swapAmount : Z)
    (swapDirection : SwapDirection) :
  0 <= swapAmount -> pegMultiplier a = 0 ->
  calculateAmmReservesAfterSwap a quote swapAmount swapDirection =
  Err BNDivisionByZero.
Proof.
  intros Hs Hp. unfold calculateAmmReservesAfterSwap.
  rewrite (assert_swapAmount_ok _ _ Hs), Hp. reflexivity.
Qed.

(** X1: a projection has exactly three outcomes.  A negative swap amount
    fails the assertion, whatever the curve state is; otherwise the call
    fails with the division-by-zero failure exactly when the peg multiplier
    is zero (quote path) or the new input-side reserve is zero; in every
    other case it returns. *)
Theorem projection_outcomes (a : AMM) (t : AssetType) (swapAmount : Z)
    (swapDirection : SwapDirection) :
  let zeroDivisor :=
    match t with
    | base =>
        newInputAssetReserve_of (baseAssetReserve a) swapAmount swapDirection
        = 0
    | quote =>
        pegMultiplier a = 0 \/
        newInputAssetReserve_of (quoteAssetReserve a)
          (Z.quot (swapAmount * MARK_PRICE_PRECISION) (pegMultiplier a)
           + (if is_remove swapDirection
                 && negb (Z.rem (swapAmount * MARK_PRICE_PRECISION)
                            (pegMultiplier a) =? 0)
              then 1 else 0))
          swapDirection
        = 0
    end in
  (swapAmount < 0 /\
   calculateAmmReservesAfterSwap a t swapAmount swapDirection
   = Err (AssertFailed "swapAmount must be greater than 0")) \/
  (0 <= swapAmount /\ zeroDivisor /\
   calculateAmmReservesAfterSwap a t swapAmount swapDirection
   = Err BNDivisionByZero) \/
  (0 <= swapAmount /\ ~ zeroDivisor /\
   exists r,
     calculateAmmReservesAfterSwap a t swapAmount swapDirection = Ok r).
Proof.
  intros zeroDivisor.
  destruct (Z.lt_ge_cases swapAmount 0) as [Hneg | Hpos].
  { left. split; [exact Hneg |].
    apply calculateAmmReservesAfterSwap_negative; exact Hneg. }
  right. destruct t; unfold zeroDivisor.
  - destruct (Z.eq_dec (pegMultiplier a) 0) as [Hz | Hnz].
    + left. split; [exact Hpos |]. split; [left; exact Hz |].
      apply calculateAmmReservesAfterSwap_zero_peg; assumption.
    + rewrite (calculateAmmReservesAfterSwap_quote _ _ _ Hpos Hnz).
      match goal with
      | |- context [newInputAssetReserve_of ?r ?x ?d = 0] =>
          destruct (Z.eq_dec (newInputAssetReserve_of r x d) 0) as [E | N]
      end.
      * left. split; [exact Hpos |]. split; [right; exact E |].
        apply calculateSwapOutput_zero_divisor; exact E.
      * right. split; [exact Hpos |]. split; [tauto |].
        rewrite (calculateSwapOutput_returns _ _ _ _ N).
        eexists; reflexivity.
  - rewrite (calculateAmmReservesAfterSwap_base _ _ _ Hpos).
    destruct (Z.eq_dec
                (newInputAssetReserve_of (baseAssetReserve a) swapAmount
                   swapDirection) 0) as [E | N].
    + left. split; [exact Hpos |]. split; [exact E |].
      rewrite (calculateSwapOutput_zero_divisor _ _ _ _ E). reflexivity.
    + right. split; [exact Hpos |]. split; [exact N |].
      rewrite (calculateSwapOutput_returns _ _ _ _ N).
      eexists; reflexivity.
Qed.

(** X2: the product of the projected reserves is [sqrtK * sqrtK] exactly if
    and only if the new input-side reserve divides [sqrtK * sqrtK]. *)
Theorem projection_product_exact_iff (a : AMM) (t : AssetType)
    (swapAmount : Z) (swapDirection : SwapDirection) (r : Z * Z) :
  calculateAmmReservesAfterSwap a t swapAmount swapDirection = Ok r ->
  (fst r * snd r = sqrtK a * sqrtK a <->
   Z.rem (sqrtK a * sqrtK a) (inputSide t r) = 0).
Proof.
  destruct r as [q b]. intros H.
  destruct t; cbn [inputSide fst snd].
  - apply quote_projection_Ok_inv in H. destruct H as [Hq ->].
    pose proof (Z.quot_rem' (sqrtK a * sqrtK a) q). lia.
  - apply base_projection_Ok_inv in H. destruct H as (_ & _ & Hb & ->).
    pose proof (Z.quot_rem' (sqrtK a * sqrtK a) b). lia.
Qed.

(** ** Rounding of the quote conversion *)

(** X3: on the quote path with a positive peg, the quote reserve grows by
    the conversion rounded down when adding and shrinks by the conversion
    rounded up when removing: times the peg, the change is within one peg of
    [swapAmount * MARK_PRICE_PRECISION], from below for Add and from above
    for Remove. *)
Theorem quote_conversion_rounding (a : AMM) (swapAmount : Z)
    (swapDirection : SwapDirection) (q b : Z) :
  0 < pegMultiplier a ->
  0 <= MARK_PRICE_PRECISION ->
  0 <= swapAmount ->
  calculateAmmReservesAfterSwap a quote swapAmount swapDirection = Ok (q, b) ->
  match swapDirection with
  | ADD =>
      (q - quoteAssetReserve a) * pegMultiplier a
      <= swapAmount * MARK_PRICE_PRECISION
      < (q - quoteAssetReserve a + 1) * pegMultiplier a
  | REMOVE =>
      (quoteAssetReserve a - q - 1) * pegMultiplier a
      < swapAmount * MARK_PRICE_PRECISION
      <= (quoteAssetReserve a - q) * pegMultiplier a
  end.
Proof.
  intros Hp Hm Hs H.
  rewrite calculateAmmReservesAfterSwap_quote in H by lia.
  apply calculateSwapOutput_Ok_inv in H. destruct H as (Hq & _ & _).
  assert (0 <= swapAmount * MARK_PRICE_PRECISION) as Hx
    by (apply Z.mul_nonneg_nonneg; assumption).
  set (x := swapAmount * MARK_PRICE_PRECISION) in *.
  pose proof (Z.quot_rem' x (pegMultiplier a)) as E.
  pose proof (Z.rem_bound_pos x (pegMultiplier a) Hx Hp) as Hr.
  destruct swapDirection; cbn [is_remove andb newInputAssetReserve_of] in Hq.
  - nia.
  - destruct (Z.eqb_spec (Z.rem x (pegMultiplier a)) 0) as [Ez | Nz];
      cbn [negb] in Hq; nia.
Qed.

(** ** Direction of the reserve movement *)

(** X4: on a positive input reserve and a non-negative invariant, a larger
    amount added leaves an output reserve that is not larger, and a larger
    amount removed (short of the whole reserve) leaves an output reserve
    that is not smaller. *)
Theorem calculateSwapOutput_monotone
    (inputAssetReserve amount1 amount2 : Z) (swapDirection : SwapDirection)
    (invariant : Z) :
  0 <= invariant ->
  0 < inputAssetReserve ->
  0 <= amount1 <= amount2 ->
  (swapDirection = REMOVE -> amount2 < inputAssetReserve) ->
  exists i1 o1 i2 o2,
    calculateSwapOutput inputAssetReserve amount1 swapDirection invariant
    = Ok (i1, o1) /\
    calculateSwapOutput inputAssetReserve amount2 swapDirection invariant
    = Ok (i2, o2) /\
    match swapDirection with
    | ADD => i1 <= i2 /\ o2 <= o1
    | REMOVE => i2 <= i1 /\ o1 <= o2
    end.
Proof.
  intros Hk Hr Ha Hrem.
  destruct swapDirection.
  - rewrite !calculateSwapOutput_returns by (cbn; lia).
    cbn [newInputAssetReserve_of].
    do 4 eexists. split; [reflexivity |]. split; [reflexivity |].
    split; [lia |]. apply Z.quot_le_compat_l; lia.
  - specialize (Hrem eq_refl).
    rewrite !calculateSwapOutput_returns by (cbn; lia).
    cbn [newInputAssetReserve_of].
    do 4 eexists. split; [reflexivity |]. split; [reflexivity |].
    split; [lia |]. apply Z.quot_le_compat_l; lia.
Qed.

End ProjectorFacts.

Section RoundTripFacts.

Context {scales : NumericConstants}.

(** ** Round trips *)

(** X5: adding a base amount and then removing the same amount from the
    stored result brings the base reserve back exactly and leaves the quote
    reserve at [sqrtK * sqrtK / baseAssetReserve], which is the original
    quote reserve when the reserves multiplied to [sqrtK * sqrtK]. *)
Theorem base_round_trip (a : AMM) (swapAmount : Z) :
  0 <= swapAmount ->
  0 < baseAssetReserve a ->
  exists a1,
    applySwap a (base, swapAmount, ADD) = Ok a1 /\
    calculateAmmReservesAfterSwap a1 base swapAmount REMOVE
    = Ok (Z.quot (sqrtK a * sqrtK a) (baseAssetReserve a),
          baseAssetReserve a) /\
    (baseAssetReserve a * quoteAssetReserve a = sqrtK a * sqrtK a ->
     calculateAmmReservesAfterSwap a1 base swapAmount REMOVE
     = Ok (quoteAssetReserve a, baseAssetReserve a)).
Proof.
  intros Hs Hb. unfold applySwap.
  rewrite (calculateAmmReservesAfterSwap_base _ _ _ Hs).
  rewrite calculateSwapOutput_returns by (cbn; lia).
  cbn [bind newInputAssetReserve_of].
  eexists. split; [reflexivity |].
  rewrite (calculateAmmReservesAfterSwap_base _ _ _ Hs).
  cbn [set_quoteAssetReserve set_baseAssetReserve baseAssetReserve sqrtK].
  rewrite calculateSwapOutput_returns by (cbn; lia).
  cbn [bind newInputAssetReserve_of].
  replace (baseAssetReserve a + swapAmount - swapAmount)
    with (baseAssetReserve a) by lia.
  split; [reflexivity |].
  intros Hinv. rewrite <- Hinv, Z.mul_comm, Z.quot_mul by lia. reflexivity.
Qed.

(** X6: adding a quote amount and then removing the same amount from the
    stored result does not always bring the quote reserve back: the
    addition rounds the conversion down and the removal rounds it up, so
    the quote reserve ends one unit below the original whenever the
    conversion leaves a remainder, and at the original otherwise. *)
Theorem quote_round_trip (a : AMM) (swapAmount : Z) :
  0 <= swapAmount ->
  0 <= MARK_PRICE_PRECISION ->
  0 < pegMultiplier a ->
  1 < quoteAssetReserve a ->
  let lost :=
    if Z.rem (swapAmount * MARK_PRICE_PRECISION) (pegMultiplier a) =? 0
    then 0 else 1 in
  exists a1,
    applySwap a (quote, swapAmount, ADD) = Ok a1 /\
    calculateAmmReservesAfterSwap a1 quote swapAmount REMOVE
    = Ok (quoteAssetReserve a - lost,
          Z.quot (sqrtK a * sqrtK a) (quoteAssetReserve a - lost)).
Proof.
  intros Hs Hm Hp Hq lost.
  assert (0 <= swapAmount * MARK_PRICE_PRECISION) as Hx
    by (apply Z.mul_nonneg_nonneg; assumption).
  pose proof (Z.quot_pos _ (pegMultiplier a) Hx Hp) as Hc.
  unfold applySwap.
  rewrite calculateAmmReservesAfterSwap_quote by lia.
  cbn [is_remove andb]. rewrite Z.add_0_r.
  rewrite calculateSwapOutput_returns by (cbn; lia).
  cbn [bind newInputAssetReserve_of].
  eexists. split; [reflexivity |].
  rewrite calculateAmmReservesAfterSwap_quote
    by (cbn [set_quoteAssetReserve set_baseAssetReserve pegMultiplier]; lia).
  cbn [set_quoteAssetReserve set_baseAssetReserve pegMultiplier
       quoteAssetReserve sqrtK is_remove andb].
  unfold lost.
  destruct (Z.rem (swapAmount * MARK_PRICE_PRECISION) (pegMultiplier a) =? 0);
    cbn [negb];
    rewrite calculateSwapOutput_returns by (cbn; lia);
    cbn [newInputAssetReserve_of];
    do 2 f_equal; try lia; f_equal; lia.
Qed.

End RoundTripFacts.

Section PriceFacts.

Context {scales : NumericConstants}.

(** ** Price Calculator *)

Lemma calculatePrice_nonzero (b q peg : Z) :
  b <> 0 ->
  calculatePrice b q peg =
  (x <- BN.div (q * MARK_PRICE_PRECISION * peg) PEG_PRECISION ;;
   BN.div x b).
Proof.
  intros Hb. unfold calculatePrice, BN.abs, ZERO.
  destruct (Z.leb_spec (Z.abs b) 0) as [Hle | _]; [| reflexivity].
  exfalso. apply Hb. pose proof (Z.abs_nonneg b). lia.
Qed.

(** X7: the two truncating divisions of the price formula lose no more
    than one division would: the price is the quotient of
    [quoteAssetAmount * MARK_PRICE_PRECISION * peg_multiplier] by
    [PEG_PRECISION * baseAssetAmount], truncated once. *)
Theorem calculatePrice_single_division
    (baseAssetAmount quoteAssetAmount peg_multiplier : Z) :
  PEG_PRECISION <> 0 ->
  baseAssetAmount <> 0 ->
  calculatePrice baseAssetAmount quoteAssetAmount peg_multiplier =
  Ok (Z.quot (quoteAssetAmount * MARK_PRICE_PRECISION * peg_multiplier)
        (PEG_PRECISION * baseAssetAmount)).
Proof.
  intros Hp Hb. rewrite (calculatePrice_nonzero _ _ _ Hb).
  rewrite (BN_div_nonzero _ _ Hp). cbn [bind].
  rewrite (BN_div_nonzero _ _ Hb).
  rewrite Z.quot_quot by assumption. reflexivity.
Qed.

(** X8: with the peg multiplier equal to the peg scale (a peg of one) the
    price is the scaled reserve ratio
    [quoteAssetAmount * MARK_PRICE_PRECISION / baseAssetAmount]. *)
Theorem calculatePrice_unit_peg (baseAssetAmount quoteAssetAmount : Z) :
  PEG_PRECISION <> 0 ->
  baseAssetAmount <> 0 ->
  calculatePrice baseAssetAmount quoteAssetAmount PEG_PRECISION =
  Ok (Z.quot (quoteAssetAmount * MARK_PRICE_PRECISION) baseAssetAmount).
Proof.
  intros Hp Hb. rewrite (calculatePrice_nonzero _ _ _ Hb).
  rewrite (BN_div_nonzero _ _ Hp). cbn [bind].
  rewrite Z.quot_mul by exact Hp.
  apply BN_div_nonzero; exact Hb.
Qed.

(** X9: for a positive base amount, non-negative scale and peg and a
    positive peg scale, the price does not decrease when the quote amount
    grows, and it is not negative for a non-negative quote amount. *)
Theorem calculatePrice_monotone_in_quote
    (baseAssetAmount quote1 quote2 peg_multiplier : Z) :
  0 < baseAssetAmount ->
  0 <= MARK_PRICE_PRECISION ->
  0 <= peg_multiplier ->
  0 < PEG_PRECISION ->
  0 <= quote1 <= quote2 ->
  exists p1 p2,
    calculatePrice baseAssetAmount quote1 peg_multiplier = Ok p1 /\
    calculatePrice baseAssetAmount quote2 peg_multiplier = Ok p2 /\
    0 <= p1 <= p2.
Proof.
  intros Hb Hm Hpeg Hps Hq.
  rewrite !calculatePrice_nonzero by lia.
  rewrite !BN_div_nonzero by lia. cbn [bind].
  rewrite !BN_div_nonzero by lia.
  do 2 eexists. split; [reflexivity |]. split; [reflexivity |].
  assert (0 <= MARK_PRICE_PRECISION * peg_multiplier) as Hmp
    by (apply Z.mul_nonneg_nonneg; assumption).
  assert (0 <= quote1 * MARK_PRICE_PRECISION * peg_multiplier
          <= quote2 * MARK_PRICE_PRECISION * peg_multiplier) as Hx by nia.
  split.
  - apply Z.quot_pos; [| exact Hb]. apply Z.quot_pos; lia.
  - apply Z.quot_le_mono; [exact Hb |].
    apply Z.quot_le_mono; lia.
Qed.

End PriceFacts.

Section TerminalPriceFacts.

Context {scales : NumericConstants}.

(** ** Terminal Price Calculator *)

(** Whatever the sign of the net position, closing it moves the base
    reserve to [baseAssetReserve + baseAssetAmount]. *)
Lemma calculateTerminalPrice_steps (market : Market) :
  calculateTerminalPrice market =
  (let newBase := baseAssetReserve (amm market) + baseAssetAmount market in
   newQuote <- BN.div (sqrtK (amm market) * sqrtK (amm market)) newBase ;;
   x <- BN.div
          (newQuote * MARK_PRICE_PRECISION * pegMultiplier (amm market))
          PEG_PRECISION ;;
   BN.div x newBase).
Proof.
  unfold calculateTerminalPrice, BN.abs, ZERO. cbv zeta.
  rewrite calculateAmmReservesAfterSwap_base by apply Z.abs_nonneg.
  rewrite calculateSwapOutput_eq.
  assert (newInputAssetReserve_of (baseAssetReserve (amm market))
            (Z.abs (baseAssetAmount market))
            (getSwapDirection base
               (if 0 <? baseAssetAmount market then SHORT else LONG))
          = baseAssetReserve (amm market) + baseAssetAmount market) as ->.
  { destruct (Z.ltb_spec 0 (baseAssetAmount market)); cbn; lia. }
  destruct (BN.div _ _) as [newQuote | e]; reflexivity.
Qed.

(** X10: the terminal price has a closed form in the new base reserve
    [baseAssetReserve + baseAssetAmount]: it fails, with the
    division-by-zero failure, exactly when that reserve is zero, and
    never reads the stored quote reserve. *)
Theorem calculateTerminalPrice_closed_form (market : Market) :
  PEG_PRECISION <> 0 ->
  let newBase := baseAssetReserve (amm market) + baseAssetAmount market in
  calculateTerminalPrice market =
  if newBase =? 0 then Err BNDivisionByZero
  else
    Ok (Z.quot
          (Z.quot
             (Z.quot (sqrtK (amm market) * sqrtK (amm market)) newBase
              * MARK_PRICE_PRECISION * pegMultiplier (amm market))
             PEG_PRECISION)
          newBase).
Proof.
  intros Hp newBase. rewrite calculateTerminalPrice_steps. fold newBase.
  cbv zeta. destruct (Z.eqb_spec newBase 0) as [E | N].
  - rewrite E. reflexivity.
  - rewrite (BN_div_nonzero _ _ N). cbn [bind].
    rewrite (BN_div_nonzero _ _ Hp). cbn [bind].
    apply BN_div_nonzero; exact N.
Qed.

(** X11: for a market without net position whose reserves multiply to
    [sqrtK * sqrtK], the terminal price is the price of the current
    reserves. *)
Theorem calculateTerminalPrice_no_position (market : Market) :
  baseAssetAmount market = 0 ->
  baseAssetReserve (amm market) <> 0 ->
  baseAssetReserve (amm market) * quoteAssetReserve (amm market)
  = sqrtK (amm market) * sqrtK (amm market) ->
  calculateTerminalPrice market =
  calculatePrice (baseAssetReserve (amm market))
    (quoteAssetReserve (amm market)) (pegMultiplier (amm market)).
Proof.
  intros Hz Hb Hinv. rewrite calculateTerminalPrice_steps. cbv zeta.
  rewrite Hz, Z.add_0_r, (BN_div_nonzero _ _ Hb), <- Hinv. cbn [bind].
  rewrite (Z.mul_comm (baseAssetReserve (amm market))), Z.quot_mul
    by exact Hb.
  symmetry. apply calculatePrice_nonzero; exact Hb.
Qed.

(** X12: on one curve with positive scales and peg, a larger net position
    gives a terminal price that is not higher, as long as the new base
    reserve stays positive. *)
Theorem calculateTerminalPrice_antitone (m1 m2 : Market) :
  amm m1 = amm m2 ->
  0 <= MARK_PRICE_PRECISION ->
  0 < PEG_PRECISION ->
  0 <= pegMultiplier (amm m1) ->
  0 < baseAssetReserve (amm m1) + baseAssetAmount m1 ->
  baseAssetAmount m1 <= baseAssetAmount m2 ->
  exists p1 p2,
    calculateTerminalPrice m1 = Ok p1 /\
    calculateTerminalPrice m2 = Ok p2 /\
    0 <= p2 <= p1.
Proof.
  intros Ha Hm Hps Hpeg Hb Hle.
  rewrite !calculateTerminalPrice_steps. cbv zeta. rewrite <- Ha.
  set (k := sqrtK (amm m1) * sqrtK (amm m1)).
  set (n1 := baseAssetReserve (amm m1) + baseAssetAmount m1) in *.
  set (n2 := baseAssetReserve (amm m1) + baseAssetAmount m2).
  assert (0 < n1 <= n2) as Hn by (unfold n2; lia).
  assert (0 <= k) as Hk by apply Z.square_nonneg.
  rewrite !BN_div_nonzero by lia. cbn [bind].
  rewrite !BN_div_nonzero by lia. cbn [bind].
  rewrite !BN_div_nonzero by lia.
  do 2 eexists. split; [reflexivity |]. split; [reflexivity |].
  assert (0 <= Z.quot k n2 <= Z.quot k n1) as Hq.
  { split; [apply Z.quot_pos; lia | apply Z.quot_le_compat_l; lia]. }
  assert (0 <= MARK_PRICE_PRECISION * pegMultiplier (amm m1)) as Hmp
    by (apply Z.mul_nonneg_nonneg; assumption).
  set (y1 := Z.quot (Z.quot k n1 * MARK_PRICE_PRECISION
                     * pegMultiplier (amm m1)) PEG_PRECISION).
  set (y2 := Z.quot (Z.quot k n2 * MARK_PRICE_PRECISION
                     * pegMultiplier (amm m1)) PEG_PRECISION).
  assert (0 <= y2 <= y1) as Hy.
  { unfold y1, y2. split.
    - apply Z.quot_pos; [nia | lia].
    - apply Z.quot_le_mono; [lia | nia]. }
  split.
  - apply Z.quot_pos; lia.
  - transitivity (Z.quot y1 n2).
    + apply Z.quot_le_mono; lia.
    + apply Z.quot_le_compat_l; lia.
Qed.

End TerminalPriceFacts.

Section MaxTradeFacts.

Context {scales : NumericConstants}.

Variable squareRootBN : Z -> result Z.

(** ** Max-Trade-Under-Limit Calculator *)

(** X13: whatever the square root returns, a returned trade size is the
    distance between the target base reserve and the current one, hence
    never negative; the direction is Short exactly when the target is
    above the current reserve, and a zero size always comes with Long. *)
Theorem maxTrade_result_shape (a : AMM) (limit_price amount : Z)
    (direction : PositionDirection) :
  calculateMaxBaseAssetAmountToTrade squareRootBN a limit_price
  = Ok (amount, direction) ->
  exists operand target,
    squareRootBN operand = Ok target /\
    amount = Z.abs (target - baseAssetReserve a) /\
    (direction = SHORT <-> baseAssetReserve a < target) /\
    (amount = 0 -> direction = LONG).
Proof.
  unfold calculateMaxBaseAssetAmountToTrade. cbv zeta. intros H.
  apply bind_Ok_inv in H. destruct H as (x & _ & H).
  apply bind_Ok_inv in H. destruct H as (operand & _ & H).
  apply bind_Ok_inv in H. destruct H as (target & Hsq & H).
  exists operand, target. split; [exact Hsq |].
  destruct (Z.gtb_spec target (baseAssetReserve a)) as [Hgt | Hle].
  - injection H as <- <-. repeat split; try lia; try reflexivity.
  - destruct (Z.ltb_spec target (baseAssetReserve a)) as [Hlt | Hge];
      injection H as <- <-; repeat split; try lia; try reflexivity;
      try discriminate.
Qed.

(** X14: when the limit is exactly the price of the current reserves (no
    truncation in the price, reserves multiplying to [sqrtK * sqrtK]) and
    the square root is exact on the square of the base reserve, there is
    nothing to trade: the result is a zero size with direction Long. *)
Theorem maxTrade_at_current_price (a : AMM) (limit_price : Z) :
  limit_price <> 0 ->
  PEG_PRECISION <> 0 ->
  baseAssetReserve a * quoteAssetReserve a = sqrtK a * sqrtK a ->
  limit_price * PEG_PRECISION * baseAssetReserve a
  = quoteAssetReserve a * MARK_PRICE_PRECISION * pegMultiplier a ->
  squareRootBN (baseAssetReserve a * baseAssetReserve a)
  = Ok (baseAssetReserve a) ->
  calculateMaxBaseAssetAmountToTrade squareRootBN a limit_price
  = Ok (0, LONG).
Proof.
  intros Hl Hp Hinv Hprice Hsq.
  unfold calculateMaxBaseAssetAmountToTrade. cbv zeta.
  rewrite (BN_div_nonzero _ _ Hl). cbn [bind].
  rewrite (BN_div_nonzero _ _ Hp). cbn [bind].
  replace (sqrtK a * sqrtK a * MARK_PRICE_PRECISION * pegMultiplier a)
    with (baseAssetReserve a * baseAssetReserve a * PEG_PRECISION
          * limit_price).
  2:{ rewrite <- Hinv.
      transitivity (baseAssetReserve a
                    * (limit_price * PEG_PRECISION * baseAssetReserve a));
        [ring | rewrite Hprice; ring]. }
  rewrite (Z.quot_mul _ _ Hl), (Z.quot_mul _ _ Hp), Hsq. cbn [bind].
  rewrite Z.gtb_ltb, !Z.ltb_irrefl. reflexivity.
Qed.

End MaxTradeFacts.

(** ** Curve Reconfiguration Cost Estimator *)

Lemma set_pegMultiplier_same (a : AMM) : set_pegMultiplier (pegMultiplier a) a = a.
Proof. destruct a; reflexivity. Qed.

Lemma BN_div_common_factor (x n d j : Z) :
  j <> 0 -> BN.div (x * (n * j)) (d * j) = BN.div (x * n) d.
Proof.
  intros Hj. unfold BN.div.
  destruct (Z.eqb_spec d 0) as [-> | Hd].
  - reflexivity.
  - destruct (Z.eqb_spec (d * j) 0) as [E | _]; [nia |].
    rewrite Z.mul_assoc, Z.quot_mul_cancel_r by assumption. reflexivity.
Qed.

Section CostFacts.

Variable calculateBaseAssetValue : Market -> NetUserPosition -> result Z.
Variable calculatePositionPNL : Market -> NetUserPosition -> result Z.

(** X15: the k-adjustment cost depends on numerator and denominator only
    through their ratio: a common nonzero factor of the two cancels,
    whatever the valuation functions are. *)
Theorem calculateAdjustKCost_common_factor
    (market : Market) (marketIndex numerator denomenator factor : Z) :
  factor <> 0 ->
  calculateAdjustKCost calculateBaseAssetValue calculatePositionPNL market
    marketIndex (numerator * factor) (denomenator * factor) =
  calculateAdjustKCost calculateBaseAssetValue calculatePositionPNL market
    marketIndex numerator denomenator.
Proof.
  intros Hj. unfold calculateAdjustKCost. cbv zeta.
  rewrite !(BN_div_common_factor _ _ _ _ Hj). reflexivity.
Qed.

(** X16: with a zero denominator the k-adjustment never returns a cost,
    whatever the valuation functions and the numerator are. *)
Theorem calculateAdjustKCost_zero_denominator
    (market : Market) (marketIndex numerator cost : Z) :
  calculateAdjustKCost calculateBaseAssetValue calculatePositionPNL market
    marketIndex numerator 0 <> Ok cost.
Proof.
  unfold calculateAdjustKCost. cbv zeta.
  destruct (calculateBaseAssetValue market _) as [v | e]; cbn [bind];
    discriminate.
Qed.

Variable calculateMarkPrice : Market -> result Z.
Variable Number : Type.
Variable convertToNumber : Z -> result Number.

(** X17: a failure in the diagnostic line of the repeg cost fails the
    whole call: when the mark price of the re-pegged market cannot be
    computed, no cost is returned, whatever the valuation of the position
    would give. *)
Theorem calculateRepegCost_diagnostic_failure
    (market : Market) (marketIndex newPeg : Z) (e : error) :
  calculateMarkPrice
    (set_amm (set_pegMultiplier newPeg (amm market)) market) = Err e ->
  forall cost,
    calculateRepegCost calculateBaseAssetValue calculatePositionPNL
      calculateMarkPrice Number convertToNumber market marketIndex newPeg
    <> Ok cost.
Proof.
  intros Hmark cost. unfold calculateRepegCost. cbv zeta.
  destruct (calculateBaseAssetValue market _) as [v | e1]; cbn [bind];
    [| discriminate].
  destruct (calculateMarkPrice market) as [p | e2]; cbn [bind];
    [| discriminate].
  destruct (convertToNumber p) as [x | e3]; cbn [bind]; [| discriminate].
  rewrite Hmark. discriminate.
Qed.

Hypothesis value_ignores_quote :
  forall market p q,
    calculateBaseAssetValue market (set_np_quoteAssetAmount q p) =
    calculateBaseAssetValue market p.

Hypothesis pnl_is_delta :
  forall market p,
    calculateBaseAssetValue market p = Ok (np_quoteAssetAmount p) ->
    calculatePositionPNL market p = Ok 0.

(** X18: re-pegging to the current peg multiplier costs nothing: when the
    position's value does not depend on the [quoteAssetAmount] it carries
    and the PnL of a position carrying its own value is 0, the repeg cost
    at [newPeg = pegMultiplier] is 0 whenever the valuation and the
    diagnostic line succeed, and their failure otherwise. *)
Theorem calculateRepegCost_same_peg (market : Market) (marketIndex : Z) :
  calculateRepegCost calculateBaseAssetValue calculatePositionPNL
    calculateMarkPrice Number convertToNumber market marketIndex
    (pegMultiplier (amm market)) =
  (_ <- calculateBaseAssetValue market
          (mkNetUserPosition (baseAssetAmount market)
             (cumulativeFundingRate (amm market)) marketIndex 0 0) ;;
   price <- calculateMarkPrice market ;;
   _ <- convertToNumber price ;;
   Ok 0).
Proof.
  unfold calculateRepegCost. cbv zeta.
  rewrite set_pegMultiplier_same, set_amm_same.
  destruct (calculateBaseAssetValue market _) as [v | e1] eqn:E; cbn [bind];
    [| reflexivity].
  destruct (calculateMarkPrice market) as [p | e2]; cbn [bind];
    [| reflexivity].
  destruct (convertToNumber p) as [x | e3]; cbn [bind]; [| reflexivity].
  apply pnl_is_delta. rewrite value_ignores_quote. exact E.
Qed.

End CostFacts.

(** ** Concrete evaluations of the further properties *)

Section MoreEvaluations.

#[local] Existing Instance exampleScales.

Lemma projection_outcomes_witness :
  calculateAmmReservesAfterSwap (exampleAmm 10 10 10 1000) base 10 REMOVE
  = Err BNDivisionByZero.
Proof.
  destruct (projection_outcomes (exampleAmm 10 10 10 1000) base 10 REMOVE)
    as [[Hneg _] | [(_ & _ & H) | (_ & Hnz & _)]].
  - exfalso. lia.
  - exact H.
  - exfalso. apply Hnz. reflexivity.
Defined.

Lemma projection_product_exact_iff_witness :
  calculateAmmReservesAfterSwap (exampleAmm 20 5 10 1000) base 5 ADD
  = Ok (4, 25) /\
  (4 * 25 = 10 * 10 <-> Z.rem (10 * 10) 25 = 0).
Proof.
  assert (H : calculateAmmReservesAfterSwap (exampleAmm 20 5 10 1000)
                base 5 ADD = Ok (4, 25)) by reflexivity.
  split; [exact H |].
  exact (projection_product_exact_iff (exampleAmm 20 5 10 1000) base 5 ADD
           (4, 25) H).
Defined.

Lemma quote_conversion_rounding_witness :
  0 < pegMultiplier
        (exampleAmm 1000000000000 1000000000000 1000000000000 1500) /\
  0 <= MARK_PRICE_PRECISION /\
  0 <= 7 /\
  calculateAmmReservesAfterSwap
    (exampleAmm 1000000000000 1000000000000 1000000000000 1500)
    quote 7 REMOVE
  = Ok (999953333333, 1000046668844) /\
  (1000000000000 - 999953333333 - 1) * 1500
  < 7 * 10000000000
  <= (1000000000000 - 999953333333) * 1500.
Proof.
  assert (H1 : 0 < pegMultiplier
                     (exampleAmm 1000000000000 1000000000000
                        1000000000000 1500)) by (cbn; lia).
  assert (H2 : 0 <= MARK_PRICE_PRECISION) by (cbn; lia).
  assert (H3 : 0 <= 7) by lia.
  assert (H4 : calculateAmmReservesAfterSwap
                 (exampleAmm 1000000000000 1000000000000 1000000000000 1500)
                 quote 7 REMOVE
               = Ok (999953333333, 1000046668844)) by reflexivity.
  split; [exact H1 |]. split; [exact H2 |]. split; [exact H3 |].
  split; [exact H4 |].
  exact (quote_conversion_rounding
           (exampleAmm 1000000000000 1000000000000 1000000000000 1500)
           7 REMOVE 999953333333 1000046668844 H1 H2 H3 H4).
Defined.

Lemma calculateSwapOutput_monotone_witness :
  0 <= 10000 /\ 0 < 100 /\ 0 <= 10 <= 30 /\
  exists i1 o1 i2 o2,
    calculateSwapOutput 100 10 REMOVE 10000 = Ok (i1, o1) /\
    calculateSwapOutput 100 30 REMOVE 10000 = Ok (i2, o2) /\
    i2 <= i1 /\ o1 <= o2.
Proof.
  assert (H1 : 0 <= 10000) by lia.
  assert (H2 : 0 < 100) by lia.
  assert (H3 : 0 <= 10 <= 30) by lia.
  assert (H4 : REMOVE = REMOVE -> 30 < 100) by (intros _; lia).
  split; [exact H1 |]. split; [exact H2 |]. split; [exact H3 |].
  exact (calculateSwapOutput_monotone 100 10 30 REMOVE 10000 H1 H2 H3 H4).
Defined.

Lemma base_round_trip_witness :
  0 <= 300 /\
  0 < baseAssetReserve (exampleAmm 2000 500 1000 1500) /\
  exists a1,
    applySwap (exampleAmm 2000 500 1000 1500) (base, 300, ADD) = Ok a1 /\
    calculateAmmReservesAfterSwap a1 base 300 REMOVE
    = Ok (Z.quot (1000 * 1000) 2000, 2000) /\
    (2000 * 500 = 1000 * 1000 ->
     calculateAmmReservesAfterSwap a1 base 300 REMOVE = Ok (500, 2000)).
Proof.
  assert (H1 : 0 <= 300) by lia.
  assert (H2 : 0 < baseAssetReserve (exampleAmm 2000 500 1000 1500))
    by (cbn; lia).
  split; [exact H1 |]. split; [exact H2 |].
  exact (base_round_trip (exampleAmm 2000 500 1000 1500) 300 H1 H2).
Defined.

Lemma quote_round_trip_witness :
  0 <= 7 /\
  0 <= MARK_PRICE_PRECISION /\
  0 < pegMultiplier
        (exampleAmm 1000000000000 1000000000000 1000000000000 1500) /\
  1 < quoteAssetReserve
        (exampleAmm 1000000000000 1000000000000 1000000000000 1500) /\
  exists a1,
    applySwap (exampleAmm 1000000000000 1000000000000 1000000000000 1500)
      (quote, 7, ADD) = Ok a1 /\
    calculateAmmReservesAfterSwap a1 quote 7 REMOVE
    = Ok (999999999999, 1000000000001).
Proof.
  assert (H1 : 0 <= 7) by lia.
  assert (H2 : 0 <= MARK_PRICE_PRECISION) by (cbn; lia).
  assert (H3 : 0 < pegMultiplier
                     (exampleAmm 1000000000000 1000000000000
                        1000000000000 1500)) by (cbn; lia).
  assert (H4 : 1 < quoteAssetReserve
                     (exampleAmm 1000000000000 1000000000000
                        1000000000000 1500)) by (cbn; lia).
  split; [exact H1 |]. split; [exact H2 |]. split; [exact H3 |].
  split; [exact H4 |].
  exact (quote_round_trip
           (exampleAmm 1000000000000 1000000000000 1000000000000 1500)
           7 H1 H2 H3 H4).
Defined.

Lemma calculatePrice_single_division_witness :
  PEG_PRECISION <> 0 /\ 3 <> 0 /\
  calculatePrice 3 7 1500 = Ok (Z.quot (7 * 10000000000 * 1500) (1000 * 3)).
Proof.
  assert (H1 : PEG_PRECISION <> 0) by (cbn; lia).
  assert (H2 : 3 <> 0) by lia.
  split; [exact H1 |]. split; [exact H2 |].
  exact (calculatePrice_single_division 3 7 1500 H1 H2).
Defined.

Lemma calculatePrice_unit_peg_witness :
  PEG_PRECISION <> 0 /\ 3 <> 0 /\
  calculatePrice 3 7 1000 = Ok 23333333333.
Proof.
  assert (H1 : PEG_PRECISION <> 0) by (cbn; lia).
  assert (H2 : 3 <> 0) by lia.
  split; [exact H1 |]. split; [exact H2 |].
  exact (calculatePrice_unit_peg 3 7 H1 H2).
Defined.

Lemma calculatePrice_monotone_in_quote_witness :
  0 < 3 /\ 0 <= MARK_PRICE_PRECISION /\ 0 <= 1500 /\ 0 < PEG_PRECISION /\
  0 <= 7 <= 8 /\
  exists p1 p2,
    calculatePrice 3 7 1500 = Ok p1 /\
    calculatePrice 3 8 1500 = Ok p2 /\
    0 <= p1 <= p2.
Proof.
  assert (H1 : 0 < 3) by lia.
  assert (H2 : 0 <= MARK_PRICE_PRECISION) by (cbn; lia).
  assert (H3 : 0 <= 1500) by lia.
  assert (H4 : 0 < PEG_PRECISION) by (cbn; lia).
  assert (H5 : 0 <= 7 <= 8) by lia.
  split; [exact H1 |]. split; [exact H2 |]. split; [exact H3 |].
  split; [exact H4 |]. split; [exact H5 |].
  exact (calculatePrice_monotone_in_quote 3 7 8 1500 H1 H2 H3 H4 H5).
Defined.

End MoreEvaluations.

Section CostEvaluations.

#[local] Existing Instance exampleScales.

Lemma calculateTerminalPrice_closed_form_witness :
  PEG_PRECISION <> 0 /\
  calculateTerminalPrice
    (exampleMarket (exampleAmm 1000000 1000000 1000000 1000) (-500))
  = Ok 10010005002 /\
  calculateTerminalPrice
    (exampleMarket (exampleAmm 1000000 1000000 1000000 1000) (-1000000))
  = Err BNDivisionByZero.
Proof.
  assert (H : PEG_PRECISION <> 0) by (cbn; lia).
  split; [exact H |]. split.
  - exact (calculateTerminalPrice_closed_form
             (exampleMarket (exampleAmm 1000000 1000000 1000000 1000) (-500))
             H).
  - exact (calculateTerminalPrice_closed_form
             (exampleMarket (exampleAmm 1000000 1000000 1000000 1000)
                (-1000000))
             H).
Defined.

Lemma calculateTerminalPrice_no_position_witness :
  baseAssetAmount (exampleMarket (exampleAmm 2000 500 1000 1500) 0) = 0 /\
  baseAssetReserve (exampleAmm 2000 500 1000 1500) <> 0 /\
  2000 * 500 = 1000 * 1000 /\
  calculateTerminalPrice (exampleMarket (exampleAmm 2000 500 1000 1500) 0)
  = calculatePrice 2000 500 1500.
Proof.
  assert (H1 : baseAssetAmount
                 (exampleMarket (exampleAmm 2000 500 1000 1500) 0) = 0)
    by reflexivity.
  assert (H2 : baseAssetReserve (exampleAmm 2000 500 1000 1500) <> 0)
    by (cbn; lia).
  assert (H3 : 2000 * 500 = 1000 * 1000) by reflexivity.
  split; [exact H1 |]. split; [exact H2 |]. split; [exact H3 |].
  exact (calculateTerminalPrice_no_position
           (exampleMarket (exampleAmm 2000 500 1000 1500) 0) H1 H2 H3).
Defined.

Lemma calculateTerminalPrice_antitone_witness :
  0 <= MARK_PRICE_PRECISION /\ 0 < PEG_PRECISION /\
  0 < 1000000 + (-500) /\ -500 <= 500 /\
  exists p1 p2,
    calculateTerminalPrice
      (exampleMarket (exampleAmm 1000000 1000000 1000000 1000) (-500))
    = Ok p1 /\
    calculateTerminalPrice
      (exampleMarket (exampleAmm 1000000 1000000 1000000 1000) 500)
    = Ok p2 /\
    0 <= p2 <= p1.
Proof.
  assert (H1 : 0 <= MARK_PRICE_PRECISION) by (cbn; lia).
  assert (H2 : 0 < PEG_PRECISION) by (cbn; lia).
  assert (H3 : 0 < 1000000 + (-500)) by lia.
  assert (H4 : -500 <= 500) by lia.
  assert (H5 : 0 <= pegMultiplier (exampleAmm 1000000 1000000 1000000 1000))
    by (cbn; lia).
  split; [exact H1 |]. split; [exact H2 |]. split; [exact H3 |].
  split; [exact H4 |].
  exact (calculateTerminalPrice_antitone
           (exampleMarket (exampleAmm 1000000 1000000 1000000 1000) (-500))
           (exampleMarket (exampleAmm 1000000 1000000 1000000 1000) 500)
           eq_refl H1 H2 H5 H3 H4).
Defined.

Lemma maxTrade_result_shape_witness :
  calculateMaxBaseAssetAmountToTrade squareRootBN_model
    (exampleAmm 1000000 1000000 1000000 1000) 2500000000
  = Ok (1000000, SHORT) /\
  exists operand target,
    squareRootBN_model operand = Ok target /\
    1000000 = Z.abs (target - 1000000) /\
    (SHORT = SHORT <-> 1000000 < target) /\
    (1000000 = 0 -> SHORT = LONG).
Proof.
  assert (H : calculateMaxBaseAssetAmountToTrade squareRootBN_model
                (exampleAmm 1000000 1000000 1000000 1000) 2500000000
              = Ok (1000000, SHORT)) by reflexivity.
  split; [exact H |].
  exact (maxTrade_result_shape squareRootBN_model
           (exampleAmm 1000000 1000000 1000000 1000) 2500000000
           1000000 SHORT H).
Defined.

Lemma maxTrade_at_current_price_witness :
  10000000000 <> 0 /\
  PEG_PRECISION <> 0 /\
  1000000 * 1000000 = 1000000 * 1000000 /\
  10000000000 * PEG_PRECISION * 1000000
  = 1000000 * MARK_PRICE_PRECISION * 1000 /\
  squareRootBN_model (1000000 * 1000000) = Ok 1000000 /\
  calculatePrice 1000000 1000000 1000 = Ok 10000000000 /\
  calculateMaxBaseAssetAmountToTrade squareRootBN_model
    (exampleAmm 1000000 1000000 1000000 1000) 10000000000
  = Ok (0, LONG).
Proof.
  assert (H1 : 10000000000 <> 0) by lia.
  assert (H2 : PEG_PRECISION <> 0) by (cbn; lia).
  assert (H3 : baseAssetReserve (exampleAmm 1000000 1000000 1000000 1000)
               * quoteAssetReserve (exampleAmm 1000000 1000000 1000000 1000)
               = sqrtK (exampleAmm 1000000 1000000 1000000 1000)
                 * sqrtK (exampleAmm 1000000 1000000 1000000 1000))
    by reflexivity.
  assert (H4 : 10000000000 * PEG_PRECISION
               * baseAssetReserve (exampleAmm 1000000 1000000 1000000 1000)
               = quoteAssetReserve (exampleAmm 1000000 1000000 1000000 1000)
                 * MARK_PRICE_PRECISION
                 * pegMultiplier (exampleAmm 1000000 1000000 1000000 1000))
    by reflexivity.
  assert (H5 : squareRootBN_model
                 (baseAssetReserve (exampleAmm 1000000 1000000 1000000 1000)
                  * baseAssetReserve
                      (exampleAmm 1000000 1000000 1000000 1000))
               = Ok (baseAssetReserve
                       (exampleAmm 1000000 1000000 1000000 1000)))
    by reflexivity.
  split; [exact H1 |]. split; [exact H2 |]. split; [exact H3 |].
  split; [exact H4 |]. split; [exact H5 |]. split; [reflexivity |].
  exact (maxTrade_at_current_price squareRootBN_model
           (exampleAmm 1000000 1000000 1000000 1000) 10000000000
           H1 H2 H3 H4 H5).
Defined.

Lemma calculateAdjustKCost_common_factor_witness :
  4 <> 0 /\
  calculateAdjustKCost baseAssetValue_model positionPNL_model
    (exampleMarket (exampleAmm 1000000 1000000 1000000 1000) 500) 0
    (3 * 4) (2 * 4)
  = calculateAdjustKCost baseAssetValue_model positionPNL_model
      (exampleMarket (exampleAmm 1000000 1000000 1000000 1000) 500) 0 3 2.
Proof.
  assert (H : 4 <> 0) by lia.
  split; [exact H |].
  exact (calculateAdjustKCost_common_factor baseAssetValue_model
           positionPNL_model
           (exampleMarket (exampleAmm 1000000 1000000 1000000 1000) 500)
           0 3 2 4 H).
Defined.

Lemma calculateAdjustKCost_zero_denominator_witness :
  calculateAdjustKCost baseAssetValue_model positionPNL_model
    (exampleMarket (exampleAmm 1000000 1000000 1000000 1000) 500) 0 3 0
  <> Ok 0.
Proof.
  exact (calculateAdjustKCost_zero_denominator baseAssetValue_model
           positionPNL_model
           (exampleMarket (exampleAmm 1000000 1000000 1000000 1000) 500)
           0 3 0).
Defined.

Lemma calculateRepegCost_diagnostic_failure_witness :
  (fun m : Market => BN.div MARK_PRICE_PRECISION (pegMultiplier (amm m)))
    (set_amm
       (set_pegMultiplier 0 (exampleAmm 1000000 1000000 1000000 1000))
       (exampleMarket (exampleAmm 1000000 1000000 1000000 1000) 500))
  = Err BNDivisionByZero /\
  calculateRepegCost baseAssetValue_model positionPNL_model
    (fun m : Market => BN.div MARK_PRICE_PRECISION (pegMultiplier (amm m)))
    Z convertToNumber_model
    (exampleMarket (exampleAmm 1000000 1000000 1000000 1000) 500) 0 0
  <> Ok 0.
Proof.
  assert (H : (fun m : Market =>
                 BN.div MARK_PRICE_PRECISION (pegMultiplier (amm m)))
                (set_amm
                   (set_pegMultiplier 0
                      (exampleAmm 1000000 1000000 1000000 1000))
                   (exampleMarket
                      (exampleAmm 1000000 1000000 1000000 1000) 500))
              = Err BNDivisionByZero) by reflexivity.
  split; [exact H |].
  exact (calculateRepegCost_diagnostic_failure baseAssetValue_model
           positionPNL_model
           (fun m : Market =>
              BN.div MARK_PRICE_PRECISION (pegMultiplier (amm m)))
           Z convertToNumber_model
           (exampleMarket (exampleAmm 1000000 1000000 1000000 1000) 500)
           0 0 BNDivisionByZero H 0).
Defined.

Lemma calculateRepegCost_same_peg_witness :
  calculateRepegCost baseAssetValue_model positionPNL_model markPrice_model
    Z convertToNumber_model
    (exampleMarket (exampleAmm 1000000 1000000 1000000 1000) 500) 0 1000
  = Ok 0.
Proof.
  exact (calculateRepegCost_same_peg baseAssetValue_model positionPNL_model
           markPrice_model Z convertToNumber_model
           baseAssetValue_model_ignores_quote positionPNL_model_is_delta
           (exampleMarket (exampleAmm 1000000 1000000 1000000 1000) 500) 0).
Defined.

End CostEvaluations.
